(** * Chart.js interaction core ([src/core/core.interaction.js])

    A shallow embedding of the hit-testing engine: the search-range
    computation [binarySearch], the two traversals
    [evaluateAllVisibleItems] and [optimizedEvaluateItems], the distance
    metric, the two item collectors and the six interaction modes.

    JavaScript numbers are IEEE 754 binary64 values; they are embedded as
    the primitive [float] type, so [<] and [===] on numbers are [ltb] and
    [eqb], with their behaviour on NaN, infinities and signed zeros.
    Array indices and the [lo]/[hi] bounds are integers ([Z]); reading an
    array outside its bounds gives [undefined], and reading a property of
    [undefined] throws: functions that can throw return [option].

    The helpers the module imports ([_lookupByKey], [_rlookupByKey],
    [_isPointInArea], the DOM position helper) are parameters of the
    embedding; [SpecHelpers] gives them a concrete form, used to run the
    module on the charts of [Sample]. *)

From Stdlib Require Import String Ascii ZArith List Bool Lia Floats.
Import ListNotations.
Local Open Scope Z_scope.

(** ** JavaScript values used by the module *)

Module JS.

(** [arr[j]]: [None] stands for [undefined]. *)
Definition get {A : Type} (arr : list A) (j : Z) : option A :=
  if j <? 0 then None else nth_error arr (Z.to_nat j).

(** [arr.length]. *)
Definition length {A : Type} (arr : list A) : Z := Z.of_nat (List.length arr).

(** Truthiness of a number: every number but [0], [-0] and [NaN]. *)
Definition truthy (r : float) : bool := negb (is_zero r || is_nan r).

(** Numeric coercion of a possibly [undefined] property: [undefined]
    converts to NaN in comparisons and arithmetic. *)
Definition ToNumber (v : option float) : float :=
  match v with
  | Some n => n
  | None => nan
  end.

(** [a || b] on an optional string: the empty string is falsy. *)
Definition or_default (a : option string) (b : string) : string :=
  match a with
  | Some s => if (s =? "")%string then b else s
  | None => b
  end.

(** [s.indexOf(c) !== -1] for a one-character needle. *)
Definition has_char (s : string) (c : ascii) : bool :=
  match String.index 0 (String c EmptyString) s with
  | Some _ => true
  | None => false
  end.

End JS.

(** ** Data model *)

Record Position : Type := mkPosition {
  pos_x : float;
  pos_y : float
}.

(** [position[key]] *)
Definition position_prop (p : Position) (key : string) : option float :=
  if (key =? "x")%string then Some (pos_x p)
  else if (key =? "y")%string then Some (pos_y p)
  else None.

Record ChartArea : Type := mkChartArea {
  left : float;
  top : float;
  right : float;
  bottom : float
}.

(** An element is an opaque capability.  [el_x] and [el_y] are the
    properties read by the key lookups ([table[mid][key]]); [getRange] is
    [None] when the element has no such method, and the method answers
    [None] when it reports no number. *)
Record Element : Type := mkElement {
  el_x : float;
  el_y : float;
  skip : bool;
  inRange : float -> float -> bool;
  inXRange : float -> bool;
  inYRange : float -> bool;
  getCenterPoint : Position;
  getRange : option (string -> option float)
}.

(** [element[key]] *)
Definition element_prop (el : Element) (key : string) : option float :=
  if (key =? "x")%string then Some (el_x el)
  else if (key =? "y")%string then Some (el_y el)
  else None.

Record Scale : Type := mkScale {
  axis : string;
  _reversePixels : bool
}.

(** [iScale] is [controller._cachedMeta.iScale]; [_sharedOptions] is an
    object or [undefined], only its truthiness is read. *)
Record Controller : Type := mkController {
  iScale : option Scale;
  _sharedOptions : bool
}.

Record Metaset : Type := mkMetaset {
  controller : Controller;
  index : Z;
  data : list Element;
  _sorted : bool
}.

Record Range : Type := mkRange {
  lo : Z;
  hi : Z
}.

Record Chart : Type := mkChart {
  _getSortedVisibleDatasetMetas : list Metaset;
  chartArea : ChartArea;
  getDatasetMeta : Z -> Metaset
}.

(** A match [{element, datasetIndex, index}]. *)
Record Item : Type := mkItem {
  element : Element;
  datasetIndex : Z;
  item_index : Z
}.

Record Options : Type := mkOptions {
  opt_axis : option string;
  intersect : bool
}.

(** The key an element is looked up by, read as a number. *)
Definition key (el : Element) (axis : string) : float :=
  JS.ToNumber (element_prop el axis).

(** ** Collaborators

    The helpers the module imports are not part of it.  The functions of
    the module take them as parameters; the definitions below give them a
    concrete form for running the module on sample charts. *)

Module SpecHelpers.

(** Modelled from the spec: part of the key lookups below.  Length of the
    longest prefix whose members all satisfy [p]. *)
Fixpoint run_length {A : Type} (p : A -> bool) (l : list A) : nat :=
  match l with
  | [] => O
  | a :: rest => if p a then S (run_length p rest) else O
  end.

(** Modelled from the spec: part of the key lookups below.  The bracketing
    range of a key sequence: [lo] is the last index of the leading run of
    keys on the [below] side (or [0]), [hi] the first index of the trailing
    run of keys on the [above] side (or [length - 1]); on a sorted
    sequence these are the nearest neighbours around the target. *)
Definition bracket (below above : float -> bool) (table : list Element) (axis : string)
    : Range :=
  let n := JS.length table in
  let b := Z.of_nat (run_length (fun el => below (key el axis)) table) in
  let a := Z.of_nat (run_length (fun el => above (key el axis)) (rev table)) in
  {| lo := Z.max 0 (b - 1); hi := Z.min (n - 1) (n - a) |}.

(** Modelled from the spec: [_lookupByKey] of [helpers/helpers.collection],
    which is not among the sources.  For a target value it returns the
    bracketing index range over an ascending key sequence, a lower-bound
    and upper-bound pairing rather than a single index. *)
Definition _lookupByKey (table : list Element) (axis : string) (value : float) : Range :=
  bracket (fun k => k <? value)%float (fun k => value <? k)%float table axis.

(** Modelled from the spec: [_rlookupByKey] of [helpers/helpers.collection],
    which is not among the sources: the same lookup over a descending key
    sequence. *)
Definition _rlookupByKey (table : list Element) (axis : string) (value : float) : Range :=
  bracket (fun k => value <? k)%float (fun k => k <? value)%float table axis.

(** Modelled from the spec: [_isPointInArea] of [helpers/helpers.canvas],
    which is not among the sources: the point-in-rectangle test, so that a
    position strictly outside the rectangle fails it. *)
Definition _isPointInArea (point : Position) (area : ChartArea) : bool :=
  (left area <=? pos_x point)%float && (pos_x point <=? right area)%float
  && (top area <=? pos_y point)%float && (pos_y point <=? bottom area)%float.

End SpecHelpers.

(** ** Sortedness and the contract of the key lookups *)

Fixpoint sorted_by (le : float -> float -> bool) (keys : list float) : bool :=
  match keys with
  | [] => true
  | k :: rest => forallb (le k) rest && sorted_by le rest
  end.

Definition ascending (table : list Element) (axis : string) : bool :=
  sorted_by (fun a b => a <=? b)%float (map (fun el => key el axis) table).

Definition descending (table : list Element) (axis : string) : bool :=
  sorted_by (fun a b => b <=? a)%float (map (fun el => key el axis) table).

(** The data of a metaset is sorted along [axis] in the direction of its
    index scale: descending pixel keys when the scale reverses pixels. *)
Definition sorted_along (metaset : Metaset) (axis : string) : bool :=
  match iScale (controller metaset) with
  | Some sc =>
      if _reversePixels sc then descending (data metaset) axis
      else ascending (data metaset) axis
  | None => ascending (data metaset) axis
  end.

(** [r] brackets the keys: every index before [lo r] holds a key on the
    [below] side, every index after [hi r] a key on the [above] side. *)
Definition brackets (below above : float -> bool) (table : list Element) (axis : string)
    (r : Range) : Prop :=
  forall i el, JS.get table i = Some el ->
    (i < lo r -> below (key el axis) = true) /\
    (hi r < i -> above (key el axis) = true).

Definition lookup_contract (lookup : list Element -> string -> float -> Range) : Prop :=
  forall table axis value, ascending table axis = true ->
    brackets (fun k => k <? value)%float (fun k => value <? k)%float table axis
      (lookup table axis value).

Definition rlookup_contract (lookup : list Element -> string -> float -> Range) : Prop :=
  forall table axis value, descending table axis = true ->
    brackets (fun k => value <? k)%float (fun k => k <? value)%float table axis
      (lookup table axis value).

(** A key lookup answers within the table: [0 <= lo] and
    [hi <= length - 1]. *)
Definition lookup_in_bounds (lookup : list Element -> string -> float -> Range) : Prop :=
  forall table axis value,
    0 <= lo (lookup table axis value) /\
    hi (lookup table axis value) <= JS.length table - 1.

(** A position strictly outside the rectangle of a chart area. *)
Definition strictly_outside (point : Position) (area : ChartArea) : bool :=
  (pos_x point <? left area)%float || (right area <? pos_x point)%float
  || (pos_y point <? top area)%float || (bottom area <? pos_y point)%float.

(** A reported range [range] is a half-extent around [value]. *)
Definition half_extent (value range : float) : bool :=
  (value - range <=? value)%float && (value <=? value + range)%float.

(** ** Sample charts *)

Module Sample.

(** A round element of radius [radius] centred at [(cx, cy)]. *)
Definition round (cx cy radius : float) (skipped : bool)
    (range : option (string -> option float)) : Element :=
  {| el_x := cx;
     el_y := cy;
     skip := skipped;
     inRange := fun px py =>
       ((px - cx) * (px - cx) + (py - cy) * (py - cy) <=? radius * radius)%float;
     inXRange := fun px => (abs (px - cx) <=? radius)%float;
     inYRange := fun py => (abs (py - cy) <=? radius)%float;
     getCenterPoint := {| pos_x := cx; pos_y := cy |};
     getRange := range |}.

Definition dot (cx cy : float) : Element := round cx cy 3 false None.
Definition gap (cx cy : float) : Element := round cx cy 3 true None.

Definition area : ChartArea :=
  {| left := 0; top := 0; right := 100; bottom := 100 |}.

Definition x_scale : Scale := {| axis := "x"; _reversePixels := false |}.

Definition metaset (i : Z) (shared : bool) (elements : list Element) : Metaset :=
  {| controller := {| iScale := Some x_scale; _sharedOptions := shared |};
     index := i;
     data := elements;
     _sorted := true |}.

Definition chart_of (metasets : list Metaset) : Chart :=
  {| _getSortedVisibleDatasetMetas := metasets;
     chartArea := area;
     getDatasetMeta := fun i =>
       match find (fun m => index m =? i) metasets with
       | Some m => m
       | None => metaset i false []
       end |}.

(** One dataset with elements at x = 10, 20, 30. *)
Definition line : Metaset := metaset 0 false [dot 10 50; dot 20 50; dot 30 50].
Definition line_chart : Chart := chart_of [line].

(** A dataset whose second point is a gap (null data). *)
Definition gapped : Metaset := metaset 0 false [dot 10 50; gap 20 50; dot 30 50].
Definition gapped_chart : Chart := chart_of [gapped].

(** Two datasets aligned by index; the second is shorter and has a gap. *)
Definition series_a : Metaset := metaset 0 false [dot 10 40; dot 20 40; dot 30 40; dot 40 40].
Definition series_b : Metaset := metaset 1 false [dot 10 60; gap 20 60; dot 30 60].
Definition two_series : Chart := chart_of [series_a; series_b].

(** Elements of equal size reporting their half-width. *)
Definition bar (cx : float) (half : float) : Element :=
  round cx 50 half false (Some (fun _ => Some half)).
Definition bars : Metaset := metaset 0 true [bar 10 4; bar 20 4; bar 30 4; bar 40 4].

(** Seven points one pixel apart on a reversed index scale, each reaching
    two pixels to either side. *)
Definition reversed_x_scale : Scale := {| axis := "x"; _reversePixels := true |}.

Definition dense_reversed : Metaset :=
  {| controller := {| iScale := Some reversed_x_scale; _sharedOptions := true |};
     index := 0;
     data := map (fun cx => bar cx 2) [23; 22; 21; 20; 19; 18; 17]%float;
     _sorted := true |}.

(** A dataset of gaps only. *)
Definition gaps_chart : Chart := chart_of [metaset 0 false [gap 10 50; gap 20 50]].

(** A key lookup that answers past the end of a three-element table. *)
Definition overshooting (table : list Element) (axis : string) (value : float) : Range :=
  {| lo := 0; hi := 5 |}.


(** Two points at the same distance from [(20, 50)]. *)
Definition tied_chart : Chart := chart_of [metaset 0 false [dot 10 50; dot 30 50]].

(** Modelled from the spec: the DOM position helper [getRelativePosition]
    of [helpers.dom], which is not among the sources, over raw events
    that already carry the chart-local position they resolve to. *)
Definition dom_position (e : Position) (_ : Chart) : Position := e.

End Sample.

(** ** The module *)

Section Interaction.

(** The collaborators imported by the module: the key lookups of
    [helpers.collection], the point-in-rectangle test of [helpers.canvas]
    and the DOM position helper of [helpers.dom], over the platform's raw
    events. *)
Variables _lookupByKey _rlookupByKey : list Element -> string -> float -> Range.
Variable _isPointInArea : Position -> ChartArea -> bool.
Variable DomEvent : Type.
Variable helpers_dom_getRelativePosition : DomEvent -> Chart -> Position.

(** An event either carries [native] (and then [x] and [y]) or is a raw
    platform event. *)
Inductive Event : Type :=
  | IEvent (x y : float)
  | Raw (e : DomEvent).

Definition getRelativePosition (e : Event) (chart : Chart) : Position :=
  match e with
  | IEvent x y => {| pos_x := x; pos_y := y |}
  | Raw e => helpers_dom_getRelativePosition e chart
  end.

(** *** The search-range computation *)

(** The range of all indices, [{lo: 0, hi: data.length - 1}]. *)
Definition full_range (metaset : Metaset) : Range :=
  {| lo := 0; hi := JS.length (data metaset) - 1 |}.

(** [typeof el.getRange === 'function' && el.getRange(axis)], kept when
    truthy. *)
Definition first_range (metaset : Metaset) (axis : string) : option float :=
  match data metaset with
  | el :: _ =>
      match getRange el with
      | Some get_range =>
          match get_range axis with
          | Some range => if JS.truthy range then Some range else None
          | None => None
          end
      | None => None
      end
  | [] => None
  end.

Definition binarySearch (metaset : Metaset) (axis : string) (value : float)
    (intersect : bool) : Range :=
  match iScale (controller metaset) with
  | Some {| axis := iScale_axis; _reversePixels := iScale_reversePixels |} =>
      if (axis =? iScale_axis)%string && _sorted metaset
         && negb (JS.length (data metaset) =? 0)
      then
        let lookupMethod := if iScale_reversePixels then _rlookupByKey else _lookupByKey in
        if negb intersect then lookupMethod (data metaset) axis value
        else if _sharedOptions (controller metaset) then
          match first_range metaset axis with
          | Some range =>
              let start := lookupMethod (data metaset) axis (value - range)%float in
              let end_ := lookupMethod (data metaset) axis (value + range)%float in
              {| lo := lo start; hi := hi end_ |}
          | None => full_range metaset
          end
        else full_range metaset
      else full_range metaset
  | None => full_range metaset
  end.

(** *** Traversals

    A handler is a callback closing over mutable variables; here it takes
    and returns the state [St] of those variables. *)

(** [items.push(x)] *)
Definition push {A : Type} (items : list A) (x : A) : list A := items ++ [x].

Section Traversal.

Context {St : Type}.
Variable handler : Element -> Z -> Z -> St -> St.

(** The inner loop of [evaluateAllVisibleItems], from index [j] on. *)
Fixpoint evaluate_from (index : Z) (elements : list Element) (j : Z) (s : St) : St :=
  match elements with
  | [] => s
  | element :: rest =>
      evaluate_from index rest (j + 1)
        (if skip element then s else handler element index j s)
  end.

Definition evaluateAllVisibleItems (chart : Chart) (s : St) : St :=
  fold_left (fun s metaset => evaluate_from (index metaset) (data metaset) 0 s)
    (_getSortedVisibleDatasetMetas chart) s.

(** The inner loop of [optimizedEvaluateItems]: [count] more iterations
    from [j]; [data[j].skip] throws when [data[j]] is [undefined]. *)
Fixpoint evaluate_range (index : Z) (data : list Element) (j : Z) (count : nat)
    (s : St) : option St :=
  match count with
  | O => Some s
  | S count' =>
      match JS.get data j with
      | Some element =>
          evaluate_range index data (j + 1) count'
            (if skip element then s else handler element index j s)
      | None => None
      end
  end.

(** One dataset of [optimizedEvaluateItems]: the loop
    [for (j = lo; j <= hi; ++j)] runs [hi - lo + 1] times, and not at all
    when [hi < lo]. *)
Definition evaluate_metaset (metaset : Metaset) (axis : string) (value : float)
    (intersect : bool) (s : St) : option St :=
  let r := binarySearch metaset axis value intersect in
  evaluate_range (index metaset) (data metaset) (lo r) (Z.to_nat (hi r - lo r + 1)) s.

Fixpoint evaluate_metasets (metasets : list Metaset) (axis : string) (value : float)
    (intersect : bool) (s : St) : option St :=
  match metasets with
  | [] => Some s
  | metaset :: rest =>
      match evaluate_metaset metaset axis value intersect s with
      | Some s' => evaluate_metasets rest axis value intersect s'
      | None => None
      end
  end.

Definition optimizedEvaluateItems (chart : Chart) (axis : string) (position : Position)
    (intersect : bool) (s : St) : option St :=
  let value := JS.ToNumber (position_prop position axis) in
  evaluate_metasets (_getSortedVisibleDatasetMetas chart) axis value intersect s.

End Traversal.

(** An item of a metaset: one of its elements, not skipped, under its
    index. *)
Definition item_of (metaset : Metaset) (it : Item) : Prop :=
  datasetIndex it = index metaset /\
  JS.get (data metaset) (item_index it) = Some (element it) /\
  skip (element it) = false.


(** The handler that records the items it is called on, and the items
    each traversal visits. *)
Definition record (element : Element) (datasetIndex index : Z) (items : list Item)
    : list Item :=
  push items (mkItem element datasetIndex index).

Definition visible_items (chart : Chart) : list Item :=
  evaluateAllVisibleItems record chart [].

Definition range_items (chart : Chart) (axis : string) (position : Position)
    (intersect : bool) : option (list Item) :=
  optimizedEvaluateItems record chart axis position intersect [].

(** A handler applied to a recorded item. *)
Definition call {St : Type} (handler : Element -> Z -> Z -> St -> St) (s : St)
    (it : Item) : St :=
  handler (element it) (datasetIndex it) (item_index it) s.

(** *** Distance metric *)

(** [Math.pow(d, 2)], as the product [d * d]; no property below depends
    on how the square is rounded. *)
Definition Math_pow2 (d : float) : float := (d * d)%float.

Definition getDistanceMetricForAxis (axis : string) : Position -> Position -> float :=
  let useX := JS.has_char axis "x" in
  let useY := JS.has_char axis "y" in
  fun pt1 pt2 =>
    let deltaX := if useX then abs (pos_x pt1 - pos_x pt2) else 0%float in
    let deltaY := if useY then abs (pos_y pt1 - pos_y pt2) else 0%float in
    sqrt (Math_pow2 deltaX + Math_pow2 deltaY).

(** *** Item collectors *)

Definition intersect_handler (position : Position) (element : Element)
    (datasetIndex index : Z) (items : list Item) : list Item :=
  if inRange element (pos_x position) (pos_y position)
  then push items (mkItem element datasetIndex index)
  else items.

Definition getIntersectItems (chart : Chart) (position : Position) (axis : string)
    : option (list Item) :=
  if negb (_isPointInArea position (chartArea chart)) then Some []
  else optimizedEvaluateItems (intersect_handler position) chart axis position true [].

(** The state of the nearest search: [minDistance] and [items]. *)
Definition nearest_handler (position : Position) (axis : string) (intersect : bool)
    (element : Element) (datasetIndex index : Z) (s : float * list Item)
    : float * list Item :=
  let '(minDistance, items) := s in
  if intersect && negb (inRange element (pos_x position) (pos_y position)) then s
  else
    let center := getCenterPoint element in
    let distance := getDistanceMetricForAxis axis position center in
    if (distance <? minDistance)%float
    then (distance, [mkItem element datasetIndex index])
    else if (distance =? minDistance)%float
    then (minDistance, push items (mkItem element datasetIndex index))
    else s.

(** The traversal is called without its [intersect] argument, which reads
    as false in [binarySearch]. *)
Definition getNearestItems (chart : Chart) (position : Position) (axis : string)
    (intersect : bool) : option (list Item) :=
  if negb (_isPointInArea position (chartArea chart)) then Some []
  else
    option_map snd
      (optimizedEvaluateItems (nearest_handler position axis intersect)
         chart axis position false (infinity, [])).

(** The distance of an item's centre from the position, and whether the
    nearest search considers the item at all. *)
Definition distance_to (position : Position) (axis : string) (it : Item) : float :=
  getDistanceMetricForAxis axis position (getCenterPoint (element it)).

Definition considered (position : Position) (intersect : bool) (it : Item) : bool :=
  negb intersect || inRange (element it) (pos_x position) (pos_y position).

(** *** The six modes *)

Inductive Mode : Type :=
  | mode_index | mode_dataset | mode_point | mode_nearest | mode_x | mode_y.

(** The expression [options.intersect ? getIntersectItems(chart, position,
    axis) : getNearestItems(chart, position, axis)] of [index] and
    [dataset]. *)
Definition items_at (chart : Chart) (position : Position) (axis : string)
    (intersect : bool) : option (list Item) :=
  if intersect then getIntersectItems chart position axis
  else getNearestItems chart position axis false.

(** [l1] is [l2] with some members left out. *)
Inductive subsequence {A : Type} : list A -> list A -> Prop :=
  | subsequence_nil : subsequence [] []
  | subsequence_skip (x : A) (l1 l2 : list A) :
      subsequence l1 l2 -> subsequence l1 (x :: l2)
  | subsequence_keep (x : A) (l1 l2 : list A) :
      subsequence l1 l2 -> subsequence (x :: l1) (x :: l2).

(** The [forEach] body of [index]: [meta.data[index]] may be [undefined]. *)
Definition modes_index_step (first : Item) (elements : list Item) (meta : Metaset) : list Item :=
  let datasetIndex := index meta in
  let index := item_index first in
  match JS.get (data meta) index with
  | Some element =>
      if skip element then elements
      else push elements (mkItem element datasetIndex index)
  | None => elements
  end.

Definition modes_index (chart : Chart) (e : Event) (options : Options) : option (list Item) :=
  let position := getRelativePosition e chart in
  let axis := JS.or_default (opt_axis options) "x" in
  match items_at chart position axis (intersect options) with
  | Some [] => Some []
  | Some (first :: _) =>
      Some (fold_left (modes_index_step first) (_getSortedVisibleDatasetMetas chart) [])
  | None => None
  end.

(** The loop of [dataset] over [data], from index [i] on. *)
Fixpoint modes_dataset_items (datasetIndex : Z) (data : list Element) (i : Z)
    (items : list Item) : list Item :=
  match data with
  | [] => items
  | el :: rest => modes_dataset_items datasetIndex rest (i + 1) (push items (mkItem el datasetIndex i))
  end.

Definition modes_dataset (chart : Chart) (e : Event) (options : Options) : option (list Item) :=
  let position := getRelativePosition e chart in
  let axis := JS.or_default (opt_axis options) "xy" in
  match items_at chart position axis (intersect options) with
  | Some [] => Some []
  | Some (first :: _) =>
      let datasetIndex := datasetIndex first in
      let data := data (getDatasetMeta chart datasetIndex) in
      Some (modes_dataset_items datasetIndex data 0 [])
  | None => None
  end.

Definition modes_point (chart : Chart) (e : Event) (options : Options) : option (list Item) :=
  let position := getRelativePosition e chart in
  let axis := JS.or_default (opt_axis options) "xy" in
  getIntersectItems chart position axis.

Definition modes_nearest (chart : Chart) (e : Event) (options : Options) : option (list Item) :=
  let position := getRelativePosition e chart in
  let axis := JS.or_default (opt_axis options) "xy" in
  getNearestItems chart position axis (intersect options).

(** The handlers of [x] and [y]; their state is [items] and
    [intersectsItem]. *)
Definition modes_x_handler (position : Position) (element : Element) (datasetIndex index : Z)
    (s : list Item * bool) : list Item * bool :=
  let '(items, intersectsItem) := s in
  (if inXRange element (pos_x position)
   then push items (mkItem element datasetIndex index) else items,
   if inRange element (pos_x position) (pos_y position) then true else intersectsItem).

Definition modes_x (chart : Chart) (e : Event) (options : Options) : list Item :=
  let position := getRelativePosition e chart in
  let '(items, intersectsItem) :=
    evaluateAllVisibleItems (modes_x_handler position) chart ([], false) in
  if intersect options && negb intersectsItem then [] else items.

Definition modes_y_handler (position : Position) (element : Element) (datasetIndex index : Z)
    (s : list Item * bool) : list Item * bool :=
  let '(items, intersectsItem) := s in
  (if inYRange element (pos_y position)
   then push items (mkItem element datasetIndex index) else items,
   if inRange element (pos_x position) (pos_y position) then true else intersectsItem).

Definition modes_y (chart : Chart) (e : Event) (options : Options) : list Item :=
  let position := getRelativePosition e chart in
  let '(items, intersectsItem) :=
    evaluateAllVisibleItems (modes_y_handler position) chart ([], false) in
  if intersect options && negb intersectsItem then [] else items.

(** [Interaction.modes[mode](chart, e, options)]; [x] and [y] cannot
    throw. *)
Definition run_mode (mode : Mode) (chart : Chart) (e : Event) (options : Options)
    : option (list Item) :=
  match mode with
  | mode_index => modes_index chart e options
  | mode_dataset => modes_dataset chart e options
  | mode_point => modes_point chart e options
  | mode_nearest => modes_nearest chart e options
  | mode_x => Some (modes_x chart e options)
  | mode_y => Some (modes_y chart e options)
  end.

(** ** Comparisons of numbers

    [<], [<=] and [===] on binary64 values, through their specification
    [SFcompare]. *)

Lemma SFcompare_antisym (a b : spec_float) :
  SFcompare b a = option_map CompOpp (SFcompare a b).
Proof.
  destruct a as [sa|sa| |sa ma ea], b as [sb|sb| |sb mb eb]; simpl;
    try (destruct sa); try (destruct sb); try reflexivity.
  all: rewrite (Z.compare_antisym ea eb); destruct (ea ?= eb)%Z; simpl; try reflexivity.
  all: pose proof (Pos.compare_cont_antisym ma mb Eq) as H; simpl in H.
  all: change (PosDef.Pos.compare_cont Eq mb ma) with (Pos.compare_cont Eq mb ma).
  all: rewrite <- H; now rewrite ?CompOpp_involutive.
Qed.

Lemma SFcompare_Eq (a b : spec_float) :
  SFcompare a b = Some Eq ->
  a = b \/ exists sa sb, a = S754_zero sa /\ b = S754_zero sb.
Proof.
  destruct a as [sa|sa| |sa ma ea], b as [sb|sb| |sb mb eb]; simpl;
    try (destruct sa); try (destruct sb); try discriminate; auto; eauto;
    destruct (ea ?= eb)%Z eqn:He; try discriminate;
    apply Z.compare_eq in He; subst eb; intros H; injection H as H;
    left; f_equal.
  - destruct (Pos.compare_cont Eq ma mb) eqn:Hm; try discriminate.
    now apply Pos.compare_eq in Hm.
  - now apply Pos.compare_eq in H.
Qed.

Lemma SFcompare_Eq_l (a b c : spec_float) :
  SFcompare a b = Some Eq -> SFcompare a c = SFcompare b c.
Proof.
  intros H. destruct (SFcompare_Eq a b H) as [->|(sa & sb & -> & ->)]; [reflexivity|].
  now destruct c.
Qed.

Lemma SFcompare_Eq_r (a b c : spec_float) :
  SFcompare a b = Some Eq -> SFcompare c a = SFcompare c b.
Proof.
  intros H. rewrite (SFcompare_antisym a c), (SFcompare_antisym b c).
  now rewrite (SFcompare_Eq_l a b c H).
Qed.

Lemma SFcompare_None (a b : spec_float) :
  SFcompare a b = None -> SFcompare a a = None \/ SFcompare b b = None.
Proof.
  destruct a, b; simpl; auto; discriminate.
Qed.

Local Ltac to_spec :=
  unfold is_nan in *;
  repeat match goal with
  | H : context [ltb _ _] |- _ => rewrite ltb_spec in H
  | H : context [eqb _ _] |- _ => rewrite eqb_spec in H
  | H : context [leb _ _] |- _ => rewrite leb_spec in H
  | |- context [ltb _ _] => rewrite ltb_spec
  | |- context [eqb _ _] => rewrite eqb_spec
  | |- context [leb _ _] => rewrite leb_spec
  end;
  unfold SFltb, SFeqb, SFleb in *.

Lemma float_ltb_not_eqb (a b : float) : (a <? b)%float = true -> (a =? b)%float = false.
Proof. to_spec. now destruct (SFcompare _ _) as [[]|]. Qed.

Lemma float_eqb_ltb_l (a b c : float) :
  (a =? b)%float = true -> (a <? c)%float = true -> (b <? c)%float = true.
Proof.
  to_spec. intros H.
  rewrite <- (SFcompare_Eq_l (Prim2SF a) (Prim2SF b)); [trivial|].
  now destruct (SFcompare (Prim2SF a) (Prim2SF b)) as [[]|].
Qed.

Lemma float_eqb_ltb_r (a b c : float) :
  (a =? b)%float = true -> (c <? a)%float = true -> (c <? b)%float = true.
Proof.
  to_spec. intros H.
  rewrite <- (SFcompare_Eq_r (Prim2SF a) (Prim2SF b)); [trivial|].
  now destruct (SFcompare (Prim2SF a) (Prim2SF b)) as [[]|].
Qed.

Lemma float_ltb_leb_false (a b : float) : (a <? b)%float = true -> (b <=? a)%float = false.
Proof.
  to_spec. rewrite (SFcompare_antisym (Prim2SF a) (Prim2SF b)).
  now destruct (SFcompare _ _) as [[]|].
Qed.

Lemma float_trichotomy (a b : float) :
  is_nan a = false -> is_nan b = false -> (b <? a)%float = false ->
  (a <? b)%float = true \/ (a =? b)%float = true.
Proof.
  to_spec. intros Ha Hb. rewrite (SFcompare_antisym (Prim2SF a) (Prim2SF b)).
  destruct (SFcompare (Prim2SF a) (Prim2SF b)) as [[]|] eqn:E; simpl; auto; try discriminate.
  destruct (SFcompare_None _ _ E) as [E'|E']; rewrite E' in *; discriminate.
Qed.

Lemma float_eqb_sym (a b : float) : (a =? b)%float = (b =? a)%float.
Proof.
  to_spec. rewrite (SFcompare_antisym (Prim2SF a) (Prim2SF b)).
  now destruct (SFcompare _ _) as [[]|].
Qed.

Lemma float_ltb_infinity (a : float) : (infinity <? a)%float = false.
Proof.
  to_spec. change (Prim2SF infinity) with (S754_infinity false).
  now destruct (Prim2SF a) as [[]|[]| |[]].
Qed.


(** ** Array reads *)

Lemma get_bounds {A : Type} (arr : list A) (j : Z) (a : A) :
  JS.get arr j = Some a -> 0 <= j <= JS.length arr - 1.
Proof.
  unfold JS.get, JS.length. destruct (j <? 0) eqn:Hj; [discriminate|].
  intros H. apply Z.ltb_ge in Hj.
  assert (Z.to_nat j < List.length arr)%nat by (apply nth_error_Some; congruence).
  lia.
Qed.

Lemma get_app_length {A : Type} (pre suf : list A) (a : A) :
  JS.get (pre ++ a :: suf) (JS.length pre) = Some a.
Proof.
  unfold JS.get, JS.length.
  destruct (Z.of_nat (List.length pre) <? 0) eqn:H; [apply Z.ltb_lt in H; lia|].
  rewrite Nat2Z.id, nth_error_app2 by lia. now rewrite Nat.sub_diag.
Qed.

(** ** The search range *)

Lemma full_range_contains (metaset : Metaset) (i : Z) (el : Element) :
  JS.get (data metaset) i = Some el ->
  lo (full_range metaset) <= i <= hi (full_range metaset).
Proof. intros H. apply get_bounds in H. exact H. Qed.

(** A query axis that is not the axis of the index scale gets the full
    range. *)
Lemma binarySearch_other_axis
    (metaset : Metaset) (a : string) (value : float) (intersect : bool) :
  (forall sc, iScale (controller metaset) = Some sc -> axis sc <> a) ->
  binarySearch metaset a value intersect = full_range metaset.
Proof.
  intros H. unfold binarySearch.
  destruct (iScale (controller metaset)) as [[ia rev]|]; [|reflexivity].
  destruct (a =? ia)%string eqn:Hax; [|reflexivity].
  apply String.eqb_eq in Hax. destruct (H _ eq_refl). simpl. congruence.
Qed.

(** C8.  A dataset that is not flagged sorted, or whose index scale is
    missing or has an axis other than the query axis, or that is empty,
    gets the full range [{lo: 0, hi: length - 1}]. *)
Theorem binarySearch_fallback_full_range
    (metaset : Metaset) (a : string) (value : float) (intersect : bool) :
  _sorted metaset = false \/
  (forall sc, iScale (controller metaset) = Some sc -> axis sc <> a) \/
  data metaset = [] ->
  binarySearch metaset a value intersect
  = {| lo := 0; hi := JS.length (data metaset) - 1 |}.
Proof.
  intros H. unfold binarySearch.
  destruct (iScale (controller metaset)) as [[ia rev]|] eqn:Hscale; [|reflexivity].
  destruct ((a =? ia)%string && _sorted metaset
            && negb (JS.length (data metaset) =? 0)) eqn:Hguard; [|reflexivity].
  apply andb_prop in Hguard as [Hguard Hlen].
  apply andb_prop in Hguard as [Hax Hs].
  exfalso. destruct H as [Hunsorted|[Haxis|Hempty]].
  - congruence.
  - apply String.eqb_eq in Hax. apply (Haxis _ eq_refl). simpl. congruence.
  - rewrite Hempty in Hlen. discriminate.
Qed.

(** C3 as amended.  With [intersect] requested, a dataset whose
    [_sharedOptions] flag is false, or whose first element reports no
    truthy range for the query axis, gets the full range. *)
Theorem binarySearch_intersect_fallback
    (metaset : Metaset) (a : string) (value : float) :
  _sharedOptions (controller metaset) = false \/ first_range metaset a = None ->
  binarySearch metaset a value true = full_range metaset.
Proof.
  intros H. unfold binarySearch.
  destruct (iScale (controller metaset)) as [[ia rev]|]; [|reflexivity].
  destruct (_ && _ && _); [|reflexivity]. simpl.
  destruct (_sharedOptions (controller metaset)); [|reflexivity].
  destruct H as [H|H]; [discriminate|]. now rewrite H.
Qed.

Lemma brackets_contains (below1 above1 below2 above2 : float -> bool)
    table a r1 r2 i el :
  brackets below1 above1 table a r1 ->
  brackets below2 above2 table a r2 ->
  JS.get table i = Some el ->
  below1 (key el a) = false ->
  above2 (key el a) = false ->
  lo r1 <= i <= hi r2.
Proof.
  intros B1 B2 Hget Hb Ha.
  destruct (B1 _ _ Hget) as [Hlo _], (B2 _ _ Hget) as [_ Hhi].
  split.
  - destruct (Z_lt_le_dec i (lo r1)) as [Hlt|]; [|assumption].
    rewrite (Hlo Hlt) in Hb. discriminate.
  - destruct (Z_lt_le_dec (hi r2) i) as [Hlt|]; [|assumption].
    rewrite (Hhi Hlt) in Ha. discriminate.
Qed.

Lemma equal_not_below (k value v : float) :
  (k =? value)%float = true -> (v <=? value)%float = true -> (k <? v)%float = false.
Proof.
  intros Hk Hv. destruct (k <? v)%float eqn:E; [|reflexivity].
  pose proof (float_eqb_ltb_l _ _ _ Hk E) as H.
  apply float_ltb_leb_false in H. congruence.
Qed.

Lemma equal_not_above (k value v : float) :
  (k =? value)%float = true -> (value <=? v)%float = true -> (v <? k)%float = false.
Proof.
  intros Hk Hv. destruct (v <? k)%float eqn:E; [|reflexivity].
  pose proof (float_eqb_ltb_r _ _ _ Hk E) as H.
  apply float_ltb_leb_false in H. congruence.
Qed.

Lemma leb_refl_of_eqb (k value : float) :
  (k =? value)%float = true -> (value <=? value)%float = true.
Proof.
  to_spec. intros H.
  rewrite <- (SFcompare_Eq_l (Prim2SF k) (Prim2SF value) _) by
    (now destruct (SFcompare (Prim2SF k) (Prim2SF value)) as [[]|]).
  now destruct (SFcompare (Prim2SF k) (Prim2SF value)) as [[]|].
Qed.

(** X2.  The range of [binarySearch] has no false negatives on an
    ascending scale, and on a reversed one as long as the ranged search is
    not taken: for key lookups that keep their bracketing contract and a
    dataset sorted along the query axis, it contains every index whose
    element's key equals the query value.  The ranged search is taken
    when the query axis is that of the index scale, the dataset is
    flagged sorted, [intersect] and [_sharedOptions] are set and the first
    element reports a range; that range is then a half-extent around the
    value. *)
Lemma binarySearch_contains_equal_keys
    (metaset : Metaset) (a : string) (value : float) (intersect : bool) :
  lookup_contract _lookupByKey ->
  rlookup_contract _rlookupByKey ->
  sorted_along metaset a = true ->
  (forall sc range,
     iScale (controller metaset) = Some sc -> axis sc = a ->
     _sorted metaset = true -> intersect = true ->
     _sharedOptions (controller metaset) = true ->
     first_range metaset a = Some range ->
     _reversePixels sc = false /\ half_extent value range = true) ->
  forall i el,
    JS.get (data metaset) i = Some el ->
    (key el a =? value)%float = true ->
    lo (binarySearch metaset a value intersect) <= i
    <= hi (binarySearch metaset a value intersect).
Proof.
  intros Hasc Hdesc Hsorted Hrange i el Hget Hk.
  unfold binarySearch, sorted_along in *.
  destruct (iScale (controller metaset)) as [[ia rev]|];
    [|now apply full_range_contains with el].
  destruct ((a =? ia)%string && _sorted metaset
            && negb (JS.length (data metaset) =? 0)) eqn:Hguard;
    [|now apply full_range_contains with el].
  apply andb_prop in Hguard as [Hguard _]. apply andb_prop in Hguard as [Hax Hflag].
  apply String.eqb_eq in Hax.
  pose proof (fun range => Hrange _ range eq_refl (eq_sym Hax) Hflag) as Hranged.
  clear Hrange. simpl in Hsorted, Hranged.
  pose proof (leb_refl_of_eqb _ _ Hk) as Hrefl.
  destruct intersect; simpl.
  - destruct (_sharedOptions (controller metaset));
      [|now apply full_range_contains with el].
    destruct (first_range metaset a) as [range|] eqn:Hr;
      [|now apply full_range_contains with el].
    destruct (Hranged range eq_refl eq_refl eq_refl) as [-> Hhalf].
    apply andb_prop in Hhalf as [Hlow Hhigh]. simpl.
    eapply brackets_contains;
      [apply Hasc, Hsorted | apply Hasc, Hsorted | exact Hget | |].
    + now apply equal_not_below with value.
    + now apply equal_not_above with value.
  - destruct rev.
    + eapply brackets_contains;
        [apply Hdesc, Hsorted | apply Hdesc, Hsorted | exact Hget | |].
      * now apply equal_not_above with value.
      * now apply equal_not_below with value.
    + eapply brackets_contains;
        [apply Hasc, Hsorted | apply Hasc, Hsorted | exact Hget | |].
      * now apply equal_not_below with value.
      * now apply equal_not_above with value.
Qed.

(** ** Traversals as folds over the visited items *)

Section TraversalFacts.

Context {St : Type}.
Variable handler : Element -> Z -> Z -> St -> St.

Lemma evaluate_from_record_app (idx : Z) (els : list Element) (j : Z) (acc : list Item) :
  evaluate_from record idx els j acc = acc ++ evaluate_from record idx els j [].
Proof.
  revert j acc. induction els as [|el rest IH]; intros j acc; simpl.
  - now rewrite app_nil_r.
  - rewrite IH. rewrite (IH (j + 1) (if skip el then [] else _)).
    destruct (skip el); [reflexivity|].
    unfold record, push. simpl. now rewrite <- app_assoc.
Qed.

Lemma evaluate_from_fold (idx : Z) (els : list Element) (j : Z) (s : St) :
  evaluate_from handler idx els j s
  = fold_left (call handler) (evaluate_from record idx els j []) s.
Proof.
  revert j s. induction els as [|el rest IH]; intros j s; simpl; [reflexivity|].
  rewrite IH, (evaluate_from_record_app idx rest (j + 1) (if skip el then [] else _)).
  rewrite fold_left_app. now destruct (skip el).
Qed.

Lemma fold_metasets_record_app (metasets : list Metaset) (acc : list Item) :
  fold_left (fun s m => evaluate_from record (index m) (data m) 0 s) metasets acc
  = acc ++ fold_left (fun s m => evaluate_from record (index m) (data m) 0 s) metasets [].
Proof.
  revert acc. induction metasets as [|m rest IH]; intros acc; simpl.
  - now rewrite app_nil_r.
  - rewrite IH, (IH (evaluate_from record _ _ 0 [])), evaluate_from_record_app.
    now rewrite app_assoc.
Qed.

Lemma evaluateAllVisibleItems_fold (chart : Chart) (s : St) :
  evaluateAllVisibleItems handler chart s
  = fold_left (call handler) (visible_items chart) s.
Proof.
  unfold visible_items, evaluateAllVisibleItems.
  generalize (_getSortedVisibleDatasetMetas chart) as metasets.
  intros metasets. revert s.
  induction metasets as [|m rest IH]; intros s; simpl; [reflexivity|].
  rewrite IH, (fold_metasets_record_app rest (evaluate_from record _ _ 0 [])).
  now rewrite fold_left_app, evaluate_from_fold.
Qed.

Lemma evaluate_range_record_app idx (els : list Element) (j : Z) (count : nat)
    (acc : list Item) :
  evaluate_range record idx els j count acc
  = option_map (app acc) (evaluate_range record idx els j count []).
Proof.
  revert j acc. induction count as [|n IH]; intros j acc; simpl.
  - now rewrite app_nil_r.
  - destruct (JS.get els j) as [el|]; [|reflexivity].
    rewrite IH, (IH (j + 1) (if skip el then [] else _)).
    destruct (evaluate_range record idx els (j + 1) n []) as [tr|]; [|reflexivity].
    simpl. destruct (skip el); [reflexivity|].
    unfold record, push. simpl. now rewrite <- app_assoc.
Qed.

Lemma evaluate_range_fold idx (els : list Element) (j : Z) (count : nat) (s : St) :
  evaluate_range handler idx els j count s
  = option_map (fun tr => fold_left (call handler) tr s)
      (evaluate_range record idx els j count []).
Proof.
  revert j s. induction count as [|n IH]; intros j s; simpl; [reflexivity|].
  destruct (JS.get els j) as [el|]; [|reflexivity].
  rewrite IH, (evaluate_range_record_app idx els (j + 1) n (if skip el then [] else _)).
  destruct (evaluate_range record idx els (j + 1) n []) as [tr|]; [|reflexivity].
  simpl. rewrite fold_left_app. now destruct (skip el).
Qed.

Lemma evaluate_metasets_record_app metasets a value intersect (acc : list Item) :
  evaluate_metasets record metasets a value intersect acc
  = option_map (app acc) (evaluate_metasets record metasets a value intersect []).
Proof.
  revert acc. induction metasets as [|m rest IH]; intros acc; simpl.
  - now rewrite app_nil_r.
  - unfold evaluate_metaset. rewrite evaluate_range_record_app.
    destruct (evaluate_range record _ _ _ _ []) as [tr|]; [|reflexivity].
    simpl. rewrite IH, (IH tr).
    destruct (evaluate_metasets record rest a value intersect []) as [tr'|];
      [|reflexivity].
    simpl. now rewrite app_assoc.
Qed.

Lemma evaluate_metasets_fold metasets a value intersect (s : St) :
  evaluate_metasets handler metasets a value intersect s
  = option_map (fun tr => fold_left (call handler) tr s)
      (evaluate_metasets record metasets a value intersect []).
Proof.
  revert s. induction metasets as [|m rest IH]; intros s; simpl; [reflexivity|].
  unfold evaluate_metaset. rewrite evaluate_range_fold.
  destruct (evaluate_range record _ _ _ _ []) as [tr|]; [|reflexivity].
  simpl. rewrite IH, (evaluate_metasets_record_app rest a value intersect tr).
  destruct (evaluate_metasets record rest a value intersect []) as [tr'|];
    [|reflexivity].
  simpl. now rewrite fold_left_app.
Qed.

Lemma optimizedEvaluateItems_fold chart a position intersect (s : St) :
  optimizedEvaluateItems handler chart a position intersect s
  = option_map (fun tr => fold_left (call handler) tr s)
      (range_items chart a position intersect).
Proof. apply evaluate_metasets_fold. Qed.

End TraversalFacts.

(** ** The items a traversal visits *)

Lemma length_app_one {A : Type} (pre : list A) (a : A) :
  JS.length (pre ++ [a]) = JS.length pre + 1.
Proof. unfold JS.length. rewrite length_app. simpl. lia. Qed.

Lemma evaluate_from_record_In idx (pre els : list Element) (it : Item) :
  In it (evaluate_from record idx els (JS.length pre) []) ->
  datasetIndex it = idx /\
  JS.get (pre ++ els) (item_index it) = Some (element it) /\
  skip (element it) = false.
Proof.
  revert pre. induction els as [|el rest IH]; intros pre; simpl; [tauto|].
  rewrite evaluate_from_record_app, in_app_iff. intros [H|H].
  - destruct (skip el) eqn:Hs; [destruct H|].
    destruct H as [<-|[]]. simpl. auto using get_app_length.
  - rewrite <- length_app_one with (a := el) in H.
    apply IH in H. now rewrite <- app_assoc in H.
Qed.

Lemma evaluate_from_record_visits idx (pre els : list Element) (i : Z) (el : Element) :
  JS.length pre <= i ->
  JS.get (pre ++ els) i = Some el ->
  skip el = false ->
  In (mkItem el idx i) (evaluate_from record idx els (JS.length pre) []).
Proof.
  revert pre. induction els as [|e rest IH]; intros pre Hi Hget Hs; simpl.
  - rewrite app_nil_r in Hget. apply get_bounds in Hget. lia.
  - rewrite evaluate_from_record_app, in_app_iff.
    destruct (Z.eq_dec i (JS.length pre)) as [->|Hne].
    + rewrite get_app_length in Hget. injection Hget as ->.
      rewrite Hs. left. now left.
    + right. rewrite <- length_app_one with (a := e).
      apply IH; [rewrite length_app_one; lia| |assumption].
      now rewrite <- app_assoc.
Qed.

(** The full traversal visits exactly the non-skipped elements of the
    visible datasets. *)
Lemma visible_items_In (chart : Chart) (it : Item) :
  In it (visible_items chart) <->
  exists metaset, In metaset (_getSortedVisibleDatasetMetas chart) /\ item_of metaset it.
Proof.
  unfold visible_items, evaluateAllVisibleItems, item_of.
  induction (_getSortedVisibleDatasetMetas chart) as [|m rest IH]; simpl.
  - split; [tauto|]. now intros (? & [] & _).
  - rewrite fold_metasets_record_app, in_app_iff, IH. split.
    + intros [H|(m' & Hin & H)].
      * exists m. split; [now left|].
        now apply (evaluate_from_record_In _ []) in H.
      * exists m'. split; [now right|assumption].
    + intros (m' & [<-|Hin] & Hds & Hget & Hs).
      * left. destruct it as [el ds i]. simpl in *. subst ds.
        apply (evaluate_from_record_visits _ []); try assumption.
        apply get_bounds in Hget. unfold JS.length. simpl. lia.
      * right. exists m'. auto.
Qed.

Lemma evaluate_range_record_In idx (els : list Element) (j : Z) (count : nat)
    (tr : list Item) (it : Item) :
  evaluate_range record idx els j count [] = Some tr ->
  In it tr ->
  datasetIndex it = idx /\
  JS.get els (item_index it) = Some (element it) /\
  skip (element it) = false /\
  j <= item_index it < j + Z.of_nat count.
Proof.
  revert j tr. induction count as [|n IH]; intros j tr; simpl.
  - intros [= <-] [].
  - destruct (JS.get els j) as [el|] eqn:Hget; [|discriminate].
    rewrite evaluate_range_record_app.
    destruct (evaluate_range record idx els (j + 1) n []) as [tr'|] eqn:Htr;
      [|discriminate].
    simpl. intros [= <-]. rewrite in_app_iff. intros [H|H].
    + destruct (skip el) eqn:Hs; [destruct H|].
      destruct H as [<-|[]]. simpl. repeat split; auto; lia.
    + destruct (IH _ _ Htr H) as (? & ? & ? & ?). repeat split; auto; lia.
Qed.

Lemma evaluate_range_record_visits idx (els : list Element) (j : Z) (count : nat)
    (tr : list Item) (i : Z) (el : Element) :
  evaluate_range record idx els j count [] = Some tr ->
  j <= i < j + Z.of_nat count ->
  JS.get els i = Some el ->
  skip el = false ->
  In (mkItem el idx i) tr.
Proof.
  revert j tr. induction count as [|n IH]; intros j tr; simpl.
  - lia.
  - destruct (JS.get els j) as [e|] eqn:Hget; [|discriminate].
    rewrite evaluate_range_record_app.
    destruct (evaluate_range record idx els (j + 1) n []) as [tr'|] eqn:Htr;
      [|discriminate].
    simpl. intros [= <-] Hi Hel Hs. rewrite in_app_iff.
    destruct (Z.eq_dec i j) as [->|Hne].
    + left. rewrite Hget in Hel. injection Hel as ->. rewrite Hs. now left.
    + right. apply (IH _ _ Htr); auto; lia.
Qed.

(** The range-restricted traversal, when it does not throw, visits exactly
    the non-skipped elements inside the search range of each visible
    dataset. *)
Lemma range_items_In chart a position intersect (tr : list Item) (it : Item) :
  range_items chart a position intersect = Some tr ->
  (In it tr <->
   exists metaset, In metaset (_getSortedVisibleDatasetMetas chart) /\
     item_of metaset it /\
     let r := binarySearch metaset a (JS.ToNumber (position_prop position a)) intersect in
     lo r <= item_index it <= hi r).
Proof.
  unfold range_items, optimizedEvaluateItems, item_of.
  generalize (JS.ToNumber (position_prop position a)) as value. intros value.
  revert tr.
  induction (_getSortedVisibleDatasetMetas chart) as [|m rest IH]; intros tr; simpl.
  - intros [= <-]. split; [intros []|]. now intros (? & [] & _).
  - unfold evaluate_metaset.
    destruct (evaluate_range record _ _ _ _ []) as [tr1|] eqn:H1; [|discriminate].
    rewrite evaluate_metasets_record_app.
    destruct (evaluate_metasets record rest a value intersect []) as [tr2|] eqn:H2;
      [|discriminate].
    simpl. intros [= <-]. rewrite in_app_iff, (IH tr2 eq_refl). split.
    + intros [H|(m' & Hin & H)].
      * exists m. split; [now left|].
        destruct (evaluate_range_record_In _ _ _ _ _ _ H1 H) as (? & ? & ? & ?).
        repeat split; auto; lia.
      * exists m'. split; [now right|assumption].
    + intros (m' & [<-|Hin] & (Hds & Hget & Hs) & Hr).
      * left. destruct it as [el ds i]. simpl in *. subst ds.
        apply (evaluate_range_record_visits _ _ _ _ _ _ _ H1); auto. lia.
      * right. exists m'. auto.
Qed.

(** ** Axis ['xy'] *)

Lemma evaluate_range_full {St : Type} (handler : Element -> Z -> Z -> St -> St)
    idx (pre suf : list Element) (s : St) :
  evaluate_range handler idx (pre ++ suf) (JS.length pre) (List.length suf) s
  = Some (evaluate_from handler idx suf (JS.length pre) s).
Proof.
  revert pre s. induction suf as [|el rest IH]; intros pre s; simpl; [reflexivity|].
  rewrite get_app_length.
  rewrite <- length_app_one with (a := el).
  replace (pre ++ el :: rest) with ((pre ++ [el]) ++ rest) by now rewrite <- app_assoc.
  apply IH.
Qed.

Lemma evaluate_metaset_full {St : Type} (handler : Element -> Z -> Z -> St -> St)
    (metaset : Metaset) (a : string) (value : float) (intersect : bool) (s : St) :
  binarySearch metaset a value intersect = full_range metaset ->
  evaluate_metaset handler metaset a value intersect s
  = Some (evaluate_from handler (index metaset) (data metaset) 0 s).
Proof.
  intros H. unfold evaluate_metaset. rewrite H. simpl.
  replace (Z.to_nat (JS.length (data metaset) - 1 - 0 + 1))
    with (List.length (data metaset)) by (unfold JS.length; lia).
  apply (evaluate_range_full handler (index metaset) [] (data metaset)).
Qed.

(** C10.  When no visible dataset has an index scale of axis ['xy'], the
    search range for axis ['xy'] is the full range of every visible
    dataset, and the range-restricted traversal calls any handler on the
    same (element, datasetIndex, index) triples, in the same order, as the
    full traversal: both visit the same items and end in the same state. *)
Theorem xy_traversal_is_full_traversal
    (chart : Chart) (position : Position) (intersect : bool) :
  (forall metaset sc, In metaset (_getSortedVisibleDatasetMetas chart) ->
     iScale (controller metaset) = Some sc -> axis sc <> "xy"%string) ->
  (forall metaset value, In metaset (_getSortedVisibleDatasetMetas chart) ->
     binarySearch metaset "xy" value intersect
     = {| lo := 0; hi := JS.length (data metaset) - 1 |}) /\
  range_items chart "xy" position intersect = Some (visible_items chart) /\
  (forall (St : Type) (handler : Element -> Z -> Z -> St -> St) (s : St),
     optimizedEvaluateItems handler chart "xy" position intersect s
     = Some (evaluateAllVisibleItems handler chart s)).
Proof.
  intros Hxy.
  assert (Hfull : forall metaset value,
            In metaset (_getSortedVisibleDatasetMetas chart) ->
            binarySearch metaset "xy" value intersect = full_range metaset).
  { intros m value Hin. apply binarySearch_other_axis.
    intros sc Hsc. exact (Hxy m sc Hin Hsc). }
  assert (Hall : forall (St : Type) (handler : Element -> Z -> Z -> St -> St) (s : St),
            optimizedEvaluateItems handler chart "xy" position intersect s
            = Some (evaluateAllVisibleItems handler chart s)).
  { intros St handler. unfold optimizedEvaluateItems, evaluateAllVisibleItems.
    generalize (JS.ToNumber (position_prop position "xy")) as value. intros value.
    induction (_getSortedVisibleDatasetMetas chart) as [|m rest IH]; intros s; simpl;
      [reflexivity|].
    rewrite evaluate_metaset_full by (apply Hfull; now left).
    apply IH.
    - intros m' sc Hin. apply Hxy. now right.
    - intros m' v Hin. apply Hfull. now right. }
  split; [exact Hfull|]. split; [apply Hall|exact Hall].
Qed.

(** ** Nearest items *)

Lemma float_ltb_not_nan (a b : float) : (a <? b)%float = true -> is_nan a = false.
Proof.
  to_spec. destruct (SFcompare (Prim2SF a) (Prim2SF b)) eqn:E; [|discriminate].
  intros _. destruct (Prim2SF a), (Prim2SF b); simpl in *;
  try discriminate; try reflexivity;
  repeat match goal with b : bool |- _ => destruct b end; try reflexivity;
  now rewrite Z.compare_refl, Pos.compare_cont_refl.
Qed.

Lemma float_eqb_refl (a : float) : is_nan a = false -> (a =? a)%float = true.
Proof. unfold is_nan. now destruct (a =? a)%float. Qed.

Section Nearest.

Variables (position : Position) (a : string) (intersect : bool).

Let step := call (nearest_handler position a intersect).
Let dist := distance_to position a.
Let ok := considered position intersect.

Lemma nearest_step (s : float * list Item) (c : Item) :
  step s c =
  if ok c then
    if (dist c <? fst s)%float then (dist c, [c])
    else if (dist c =? fst s)%float then (fst s, push (snd s) c)
    else s
  else s.
Proof.
  destruct s as [m items], c as [el ds i].
  unfold step, call, nearest_handler, ok, considered, dist, distance_to. simpl.
  destruct intersect, (inRange el (pos_x position) (pos_y position)); reflexivity.
Qed.



End Nearest.

(** ** Index mode *)

Lemma index_fold_In (first : Item) (metasets : list Metaset) (acc : list Item) (it : Item) :
  In it (fold_left (modes_index_step first) metasets acc) <->
  In it acc \/
  exists meta, In meta metasets /\ item_of meta it /\ item_index it = item_index first.
Proof.
  revert acc. induction metasets as [|m rest IH]; intros acc; simpl.
  - split; [auto|]. intros [H|(? & [] & _)]. exact H.
  - rewrite IH. unfold modes_index_step, item_of.
    destruct (JS.get (data m) (item_index first)) as [el|] eqn:Hget.
    + destruct (skip el) eqn:Hs.
      * split; intros [H|(m' & Hin & H)]; auto.
        -- right. exists m'. auto.
        -- destruct Hin as [<-|Hin]; [|right; exists m'; auto].
           destruct H as ((_ & Hg & Hsk) & Hi). rewrite Hi, Hget in Hg.
           injection Hg as Hg. rewrite <- Hg in Hsk. congruence.
      * unfold push. rewrite in_app_iff. simpl.
        split; intros [H|(m' & Hin & H)]; auto.
        -- destruct H as [H|[<-|[]]]; auto.
           right. exists m. simpl. auto 6.
        -- right. exists m'. auto.
        -- destruct Hin as [<-|Hin]; [|right; exists m'; auto].
           left. right. left.
           destruct it as [el' ds' i']. simpl in *.
           destruct H as ((-> & Hg & _) & ->). congruence.
    + split; intros [H|(m' & Hin & H)]; auto.
      * right. exists m'. auto.
      * destruct Hin as [<-|Hin]; [|right; exists m'; auto].
        destruct H as ((_ & Hg & _) & Hi). rewrite Hi in Hg. congruence.
Qed.

Lemma subsequence_app {A : Type} (k l1 l2 : list A) :
  subsequence l1 l2 -> subsequence (k ++ l1) (k ++ l2).
Proof. intros H. induction k; simpl; [assumption|now constructor]. Qed.

Lemma index_fold_indices (first : Item) (metasets : list Metaset) (acc : list Item) :
  exists l, map datasetIndex (fold_left (modes_index_step first) metasets acc)
            = map datasetIndex acc ++ l /\
            subsequence l (map index metasets).
Proof.
  revert acc. induction metasets as [|m rest IH]; intros acc; simpl.
  - exists []. split; [now rewrite app_nil_r|constructor].
  - destruct (IH (modes_index_step first acc m)) as (l & Hl & Hsub).
    rewrite Hl. unfold modes_index_step.
    destruct (JS.get (data m) (item_index first)) as [el|].
    + destruct (skip el).
      * exists l. split; [reflexivity|now constructor].
      * exists (index m :: l). split; [|now constructor].
        unfold push. rewrite map_app. simpl. now rewrite <- app_assoc.
    + exists l. split; [reflexivity|now constructor].
Qed.

(** C6.  In index mode, when the initial search has a first match, of
    index [i], the result holds, for every visible dataset with a present
    and non-skipped element at index [i], the match of that element. *)
Theorem index_mode_alignment
    (chart : Chart) (e : Event) (options : Options) (first : Item) (others : list Item) :
  items_at chart (getRelativePosition e chart) (JS.or_default (opt_axis options) "x")
    (intersect options) = Some (first :: others) ->
  exists result,
    modes_index chart e options = Some result /\
    forall meta el,
      In meta (_getSortedVisibleDatasetMetas chart) ->
      JS.get (data meta) (item_index first) = Some el ->
      skip el = false ->
      In (mkItem el (index meta) (item_index first)) result.
Proof.
  intros Hsearch. unfold modes_index. rewrite Hsearch.
  eexists. split; [reflexivity|].
  intros meta el Hin Hget Hs. apply index_fold_In. right.
  exists meta. unfold item_of. simpl. auto.
Qed.

(** C9.  A non-empty result of index mode comes from a first raw match;
    every returned match has the index of that first match, the dataset
    indices of the result are those of the visible datasets in order with
    some left out (at most one match per visible dataset), and each match
    holds the element of its dataset at the shared index. *)
Theorem index_mode_shares_index
    (chart : Chart) (e : Event) (options : Options) (result : list Item) :
  modes_index chart e options = Some result ->
  result <> [] ->
  exists first others,
    items_at chart (getRelativePosition e chart) (JS.or_default (opt_axis options) "x")
      (intersect options) = Some (first :: others) /\
    (forall it, In it result -> item_index it = item_index first) /\
    subsequence (map datasetIndex result)
      (map index (_getSortedVisibleDatasetMetas chart)) /\
    (forall it, In it result ->
       exists meta, In meta (_getSortedVisibleDatasetMetas chart) /\
         datasetIndex it = index meta /\
         JS.get (data meta) (item_index first) = Some (element it)).
Proof.
  unfold modes_index.
  destruct (items_at _ _ _ _) as [[|first others]|]; [| |discriminate].
  - intros [= <-] H. now destruct H.
  - intros [= <-] _. exists first, others. split; [reflexivity|].
    split; [|split].
    + intros it Hin. apply index_fold_In in Hin.
      destruct Hin as [[]|(_ & _ & _ & H)]. exact H.
    + destruct (index_fold_indices first (_getSortedVisibleDatasetMetas chart) [])
        as (l & -> & Hsub). exact Hsub.
    + intros it Hin. apply index_fold_In in Hin.
      destruct Hin as [[]|(meta & Hm & (Hds & Hget & _) & Hi)].
      exists meta. rewrite <- Hi. auto.
Qed.

(** ** Modes x and y *)

Lemma x_fold (position : Position) (tr items : list Item) (b : bool) :
  fold_left (call (modes_x_handler position)) tr (items, b)
  = (items ++ filter (fun it => inXRange (element it) (pos_x position)) tr,
     b || existsb (fun it => inRange (element it) (pos_x position) (pos_y position)) tr).
Proof.
  revert items b. induction tr as [|it rest IH]; intros items b; simpl.
  - now rewrite app_nil_r, orb_false_r.
  - unfold call at 2, modes_x_handler. rewrite IH. destruct it as [el ds i]. simpl.
    destruct (inXRange el (pos_x position)),
             (inRange el (pos_x position) (pos_y position)), b;
      unfold push; simpl; now rewrite <- ?app_assoc.
Qed.

Lemma y_fold (position : Position) (tr items : list Item) (b : bool) :
  fold_left (call (modes_y_handler position)) tr (items, b)
  = (items ++ filter (fun it => inYRange (element it) (pos_y position)) tr,
     b || existsb (fun it => inRange (element it) (pos_x position) (pos_y position)) tr).
Proof.
  revert items b. induction tr as [|it rest IH]; intros items b; simpl.
  - now rewrite app_nil_r, orb_false_r.
  - unfold call at 2, modes_y_handler. rewrite IH. destruct it as [el ds i]. simpl.
    destruct (inYRange el (pos_y position)),
             (inRange el (pos_x position) (pos_y position)), b;
      unfold push; simpl; now rewrite <- ?app_assoc.
Qed.

Lemma modes_x_filter (chart : Chart) (e : Event) (options : Options) :
  modes_x chart e options =
  let position := getRelativePosition e chart in
  if intersect options
     && negb (existsb (fun it => inRange (element it) (pos_x position) (pos_y position))
                (visible_items chart))
  then []
  else filter (fun it => inXRange (element it) (pos_x position)) (visible_items chart).
Proof.
  unfold modes_x. now rewrite evaluateAllVisibleItems_fold, x_fold.
Qed.

Lemma modes_y_filter (chart : Chart) (e : Event) (options : Options) :
  modes_y chart e options =
  let position := getRelativePosition e chart in
  if intersect options
     && negb (existsb (fun it => inRange (element it) (pos_x position) (pos_y position))
                (visible_items chart))
  then []
  else filter (fun it => inYRange (element it) (pos_y position)) (visible_items chart).
Proof.
  unfold modes_y. now rewrite evaluateAllVisibleItems_fold, y_fold.
Qed.

(** C7.  In modes x and y with [intersect] set, when no non-skipped
    element of a visible dataset passes the 2D [inRange] test at the
    position the result is empty, whatever passes [inXRange] or
    [inYRange]; with [intersect] unset, or some such element passing
    [inRange], the result holds exactly the non-skipped elements of the
    visible datasets that pass the axis test, each under its dataset
    index and its index. *)
Theorem axis_modes_intersect_gating (chart : Chart) (e : Event) (options : Options) :
  let position := getRelativePosition e chart in
  (intersect options = true ->
   (forall metaset i el,
      In metaset (_getSortedVisibleDatasetMetas chart) ->
      JS.get (data metaset) i = Some el ->
      skip el = false ->
      inRange el (pos_x position) (pos_y position) = false) ->
   modes_x chart e options = [] /\ modes_y chart e options = []) /\
  (intersect options = false \/
   (exists metaset i el,
      In metaset (_getSortedVisibleDatasetMetas chart) /\
      JS.get (data metaset) i = Some el /\
      skip el = false /\
      inRange el (pos_x position) (pos_y position) = true) ->
   forall it,
     (In it (modes_x chart e options) <->
      exists metaset,
        In metaset (_getSortedVisibleDatasetMetas chart) /\
        datasetIndex it = index metaset /\
        JS.get (data metaset) (item_index it) = Some (element it) /\
        skip (element it) = false /\
        inXRange (element it) (pos_x position) = true) /\
     (In it (modes_y chart e options) <->
      exists metaset,
        In metaset (_getSortedVisibleDatasetMetas chart) /\
        datasetIndex it = index metaset /\
        JS.get (data metaset) (item_index it) = Some (element it) /\
        skip (element it) = false /\
        inYRange (element it) (pos_y position) = true)).
Proof.
  intros position. rewrite modes_x_filter, modes_y_filter. cbv zeta.
  fold position.
  set (hit := fun it : Item => inRange (element it) (pos_x position) (pos_y position)).
  split.
  - intros -> Hnone.
    assert (existsb hit (visible_items chart) = false) as ->; [|now split].
    destruct (existsb hit (visible_items chart)) eqn:E; [|reflexivity].
    apply existsb_exists in E as (it & Hin & Hit).
    apply visible_items_In in Hin. destruct Hin as (m & Hm & _ & Hget & Hs).
    unfold hit in Hit. rewrite (Hnone m _ _ Hm Hget Hs) in Hit. discriminate.
  - intros Hgate.
    assert (intersect options && negb (existsb hit (visible_items chart)) = false)
      as ->.
    { destruct Hgate as [->|(m & i & el & Hm & Hget & Hs & Hit)]; [reflexivity|].
      assert (existsb hit (visible_items chart) = true) as ->;
        [|apply andb_false_r].
      apply existsb_exists. exists (mkItem el (index m) i). split; [|exact Hit].
      apply visible_items_In. exists m. unfold item_of. simpl. auto. }
    intros it. rewrite !filter_In, visible_items_In. unfold item_of.
    split; split.
    + intros ((m & Hm & Hds & Hget & Hs) & Hax). exists m. auto.
    + intros (m & Hm & Hds & Hget & Hs & Hax). split; [exists m|]; auto.
    + intros ((m & Hm & Hds & Hget & Hs) & Hax). exists m. auto.
    + intros (m & Hm & Hds & Hget & Hs & Hax). split; [exists m|]; auto.
Qed.

(** ** Collectors *)

Lemma intersect_fold_In (position : Position) (tr acc : list Item) (it : Item) :
  In it (fold_left (call (intersect_handler position)) tr acc) ->
  In it acc \/ In it tr.
Proof.
  revert acc. induction tr as [|c rest IH]; intros acc; simpl; [auto|].
  intros H. apply IH in H. destruct H as [H|H]; [|auto].
  unfold call, intersect_handler in H.
  destruct (inRange (element c) (pos_x position) (pos_y position)); [|auto].
  unfold push in H. apply in_app_or in H. destruct H as [H|[<-|[]]]; auto.
  destruct c. auto.
Qed.

Lemma nearest_fold_In (position : Position) (a : string) (intersect : bool)
    (tr : list Item) (s : float * list Item) (it : Item) :
  In it (snd (fold_left (call (nearest_handler position a intersect)) tr s)) ->
  In it (snd s) \/ In it tr.
Proof.
  revert s. induction tr as [|c rest IH]; intros s; cbn [fold_left]; [auto|].
  intros H. apply IH in H. destruct H as [H|H]; [|simpl; auto].
  rewrite nearest_step in H.
  destruct (considered position intersect c); [|auto].
  destruct (_ <? _)%float.
  - destruct H as [<-|[]]. simpl. auto.
  - destruct (_ =? _)%float; [|auto].
    unfold push in H. apply in_app_or in H. destruct H as [H|[<-|[]]]; simpl; auto.
Qed.

Lemma range_items_not_skipped chart a position intersect (tr : list Item) (it : Item) :
  range_items chart a position intersect = Some tr -> In it tr ->
  skip (element it) = false.
Proof.
  intros Htr Hin. apply (range_items_In _ _ _ _ _ it Htr) in Hin.
  now destruct Hin as (_ & _ & (_ & _ & Hs) & _).
Qed.

Lemma getIntersectItems_not_skipped chart position a (items : list Item) (it : Item) :
  getIntersectItems chart position a = Some items -> In it items ->
  skip (element it) = false.
Proof.
  unfold getIntersectItems. destruct (negb _).
  - intros [= <-] [].
  - rewrite optimizedEvaluateItems_fold.
    destruct (range_items chart a position true) as [tr|] eqn:Htr; [|discriminate].
    simpl. intros [= <-] Hin. apply intersect_fold_In in Hin.
    destruct Hin as [[]|Hin]. eauto using range_items_not_skipped.
Qed.

Lemma getNearestItems_not_skipped chart position a intersect (items : list Item)
    (it : Item) :
  getNearestItems chart position a intersect = Some items -> In it items ->
  skip (element it) = false.
Proof.
  unfold getNearestItems. destruct (negb _).
  - intros [= <-] [].
  - rewrite optimizedEvaluateItems_fold.
    destruct (range_items chart a position false) as [tr|] eqn:Htr; [|discriminate].
    simpl. intros [= <-] Hin. apply nearest_fold_In in Hin.
    destruct Hin as [[]|Hin]. eauto using range_items_not_skipped.
Qed.

(** X1.  The skip invariant of the modes other than [dataset]: no
    returned match holds a skipped element. *)
Lemma modes_skip_invariant
    (mode : Mode) (chart : Chart) (e : Event) (options : Options)
    (result : list Item) (it : Item) :
  mode <> mode_dataset ->
  run_mode mode chart e options = Some result ->
  In it result ->
  skip (element it) = false.
Proof.
  intros Hmode. destruct mode; simpl; try congruence.
  - unfold modes_index.
    destruct (items_at _ _ _ _) as [[|first others]|]; [| |discriminate].
    + intros [= <-] [].
    + intros [= <-] Hin. apply index_fold_In in Hin.
      now destruct Hin as [[]|(_ & _ & (_ & _ & Hs) & _)].
  - apply getIntersectItems_not_skipped.
  - apply getNearestItems_not_skipped.
  - intros [= <-]. rewrite modes_x_filter. cbv zeta.
    destruct (_ && _); [intros []|]. intros Hin. apply filter_In in Hin as [Hin _].
    apply visible_items_In in Hin. now destruct Hin as (_ & _ & _ & _ & Hs).
  - intros [= <-]. rewrite modes_y_filter. cbv zeta.
    destruct (_ && _); [intros []|]. intros Hin. apply filter_In in Hin as [Hin _].
    apply visible_items_In in Hin. now destruct Hin as (_ & _ & _ & _ & Hs).
Qed.

(** The gate of modes index, dataset, point and nearest: a position that
    fails the chart-area test gives the empty result, without throwing. *)
Theorem area_gating
    (mode : Mode) (chart : Chart) (e : Event) (options : Options) :
  mode <> mode_x ->
  mode <> mode_y ->
  _isPointInArea (getRelativePosition e chart) (chartArea chart) = false ->
  run_mode mode chart e options = Some [].
Proof.
  intros Hx Hy Harea.
  destruct mode; simpl; try congruence;
    unfold modes_index, modes_dataset, modes_point, modes_nearest, items_at,
      getIntersectItems, getNearestItems;
    rewrite Harea; simpl; now destruct (intersect options).
Qed.

(** ** Throwing and not throwing *)

Lemma binarySearch_in_bounds
    (metaset : Metaset) (a : string) (value : float) (intersect : bool) :
  lookup_in_bounds _lookupByKey ->
  lookup_in_bounds _rlookupByKey ->
  0 <= lo (binarySearch metaset a value intersect) /\
  hi (binarySearch metaset a value intersect) <= JS.length (data metaset) - 1.
Proof.
  intros Hl Hr. unfold binarySearch.
  assert (Hfull : 0 <= lo (full_range metaset) /\
                  hi (full_range metaset) <= JS.length (data metaset) - 1)
    by (simpl; lia).
  destruct (iScale (controller metaset)) as [[ia rev]|]; [|exact Hfull].
  destruct (_ && _ && _); [|exact Hfull].
  destruct (negb intersect).
  - destruct rev; [apply Hr|apply Hl].
  - destruct (_sharedOptions (controller metaset)); [|exact Hfull].
    destruct (first_range metaset a) as [range|]; [|exact Hfull].
    simpl. destruct rev.
    + split; [apply (Hr (data metaset) a (value - range)%float)
             |apply (Hr (data metaset) a (value + range)%float)].
    + split; [apply (Hl (data metaset) a (value - range)%float)
             |apply (Hl (data metaset) a (value + range)%float)].
Qed.

Lemma get_in_bounds {A : Type} (arr : list A) (j : Z) :
  0 <= j <= JS.length arr - 1 -> exists a, JS.get arr j = Some a.
Proof.
  unfold JS.get, JS.length. intros H.
  destruct (j <? 0) eqn:Hj; [apply Z.ltb_lt in Hj; lia|].
  destruct (nth_error arr (Z.to_nat j)) as [a|] eqn:E; [now exists a|].
  apply nth_error_None in E. lia.
Qed.

Lemma get_out_of_bounds {A : Type} (arr : list A) (j : Z) :
  j < 0 \/ JS.length arr <= j -> JS.get arr j = None.
Proof.
  unfold JS.get, JS.length. intros H.
  destruct (j <? 0) eqn:Hj; [reflexivity|]. apply Z.ltb_ge in Hj.
  apply nth_error_None. lia.
Qed.

Lemma evaluate_range_returns {St : Type} (handler : Element -> Z -> Z -> St -> St)
    idx (els : list Element) (j : Z) (count : nat) (s : St) :
  ((0 < count)%nat -> 0 <= j /\ j + Z.of_nat count <= JS.length els) ->
  exists s', evaluate_range handler idx els j count s = Some s'.
Proof.
  revert j s. induction count as [|n IH]; intros j s Hn; simpl; [now exists s|].
  destruct (get_in_bounds els j) as [el ->]; [lia|].
  apply IH; lia.
Qed.

Lemma evaluate_range_throws {St : Type} (handler : Element -> Z -> Z -> St -> St)
    idx (els : list Element) (j : Z) (count : nat) (s : St) :
  (0 < count)%nat ->
  j < 0 \/ JS.length els < j + Z.of_nat count ->
  evaluate_range handler idx els j count s = None.
Proof.
  revert j s. induction count as [|n IH]; intros j s Hc Hout; simpl; [lia|].
  destruct (JS.get els j) as [el|] eqn:Hget; [|reflexivity].
  apply get_bounds in Hget.
  apply IH; [|right; lia].
  destruct n; [lia|lia].
Qed.

Lemma optimizedEvaluateItems_returns {St : Type}
    (handler : Element -> Z -> Z -> St -> St)
    (chart : Chart) (a : string) (position : Position) (intersect : bool) (s : St) :
  lookup_in_bounds _lookupByKey ->
  lookup_in_bounds _rlookupByKey ->
  exists s', optimizedEvaluateItems handler chart a position intersect s = Some s'.
Proof.
  intros Hl Hr. unfold optimizedEvaluateItems.
  generalize (JS.ToNumber (position_prop position a)) as value. intros value.
  revert s. induction (_getSortedVisibleDatasetMetas chart) as [|m rest IH];
    intros s; simpl; [now exists s|].
  unfold evaluate_metaset.
  destruct (binarySearch_in_bounds m a value intersect Hl Hr) as [Hlo Hhi].
  destruct (evaluate_range_returns handler (index m) (data m)
              (lo (binarySearch m a value intersect))
              (Z.to_nat (hi (binarySearch m a value intersect)
                         - lo (binarySearch m a value intersect) + 1)) s)
    as [s' ->]; [lia|].
  apply IH.
Qed.


(** X3.  When both key lookups answer within the table they are given, no
    mode throws: each returns a result for every chart, event and
    options. *)
Theorem modes_return
    (mode : Mode) (chart : Chart) (e : Event) (options : Options) :
  lookup_in_bounds _lookupByKey ->
  lookup_in_bounds _rlookupByKey ->
  exists result, run_mode mode chart e options = Some result.
Proof.
  intros Hl Hr.
  assert (Hi : forall position a,
            exists items, getIntersectItems chart position a = Some items).
  { intros position a. unfold getIntersectItems.
    destruct (negb _); [now exists []|].
    apply optimizedEvaluateItems_returns; assumption. }
  assert (Hn : forall position a intersect,
            exists items, getNearestItems chart position a intersect = Some items).
  { intros position a intersect. unfold getNearestItems.
    destruct (negb _); [now exists []|].
    destruct (optimizedEvaluateItems_returns
                (nearest_handler position a intersect) chart a position false
                (infinity, []) Hl Hr) as [s' ->].
    now exists (snd s'). }
  assert (Ha : forall position a intersect,
            exists items, items_at chart position a intersect = Some items).
  { intros position a intersect. unfold items_at. destruct intersect; auto. }
  destruct mode; simpl.
  - unfold modes_index.
    destruct (Ha (getRelativePosition e chart) (JS.or_default (opt_axis options) "x")
                (intersect options)) as [[|first others] ->]; eauto.
  - unfold modes_dataset.
    destruct (Ha (getRelativePosition e chart) (JS.or_default (opt_axis options) "xy")
                (intersect options)) as [[|first others] ->]; eauto.
  - apply Hi.
  - apply Hn.
  - eauto.
  - eauto.
Qed.

(** X4.  When the search range of some visible dataset is not empty and
    reaches outside the dataset's elements, the range-restricted traversal
    throws, whatever the handler: it reads [skip] of an [undefined]
    element. *)
Theorem optimizedEvaluateItems_throws
    (chart : Chart) (a : string) (position : Position) (intersect : bool)
    (metaset : Metaset) :
  In metaset (_getSortedVisibleDatasetMetas chart) ->
  (let r := binarySearch metaset a (JS.ToNumber (position_prop position a)) intersect in
   lo r <= hi r /\ (lo r < 0 \/ JS.length (data metaset) <= hi r)) ->
  forall (St : Type) (handler : Element -> Z -> Z -> St -> St) (s : St),
    optimizedEvaluateItems handler chart a position intersect s = None.
Proof.
  cbv zeta. intros Hin [Hne Hout] St handler. unfold optimizedEvaluateItems.
  revert Hne Hout.
  generalize (JS.ToNumber (position_prop position a)) as value. intros value Hne Hout.
  induction (_getSortedVisibleDatasetMetas chart) as [|m rest IH]; intros s;
    [destruct Hin|]. simpl.
  destruct (evaluate_metaset handler m a value intersect s) as [s'|] eqn:Hm;
    [|reflexivity].
  destruct Hin as [->|Hin]; [|now apply IH].
  unfold evaluate_metaset in Hm.
  rewrite evaluate_range_throws in Hm; [discriminate|lia|lia].
Qed.

(** ** Charts with nothing to hit *)

Lemma get_In {A : Type} (arr : list A) (j : Z) (a : A) :
  JS.get arr j = Some a -> In a arr.
Proof.
  unfold JS.get. destruct (j <? 0); [discriminate|]. apply nth_error_In.
Qed.

Lemma range_items_all_skipped chart a position intersect (tr : list Item) :
  (forall metaset el, In metaset (_getSortedVisibleDatasetMetas chart) ->
     In el (data metaset) -> skip el = true) ->
  range_items chart a position intersect = Some tr -> tr = [].
Proof.
  intros Hskip Htr. destruct tr as [|it tr']; [reflexivity|].
  destruct (proj1 (range_items_In _ _ _ _ _ it Htr) (or_introl eq_refl))
    as (m & Hin & (_ & Hget & Hs) & _).
  apply get_In in Hget. rewrite (Hskip m _ Hin Hget) in Hs. discriminate.
Qed.

Lemma visible_items_all_skipped chart :
  (forall metaset el, In metaset (_getSortedVisibleDatasetMetas chart) ->
     In el (data metaset) -> skip el = true) ->
  visible_items chart = [].
Proof.
  intros Hskip. destruct (visible_items chart) as [|it tr'] eqn:E; [reflexivity|].
  assert (Hin : In it (visible_items chart)) by (rewrite E; now left).
  apply visible_items_In in Hin. destruct Hin as (m & Hin & _ & Hget & Hs).
  apply get_In in Hget. rewrite (Hskip m _ Hin Hget) in Hs. discriminate.
Qed.

(** X5.  On a chart whose visible datasets hold skipped elements only (or
    none, or there is no visible dataset), every mode returns the empty
    result, at every position and for all options, when the key lookups
    answer within the table. *)
Theorem all_skipped_nothing_hit
    (mode : Mode) (chart : Chart) (e : Event) (options : Options) :
  lookup_in_bounds _lookupByKey ->
  lookup_in_bounds _rlookupByKey ->
  (forall metaset el, In metaset (_getSortedVisibleDatasetMetas chart) ->
     In el (data metaset) -> skip el = true) ->
  run_mode mode chart e options = Some [].
Proof.
  intros Hl Hr Hskip.
  assert (Hrange : forall a position intersect,
            range_items chart a position intersect = Some []).
  { intros a position intersect.
    destruct (optimizedEvaluateItems_returns record chart a position intersect []
                Hl Hr) as [tr Htr].
    unfold range_items. rewrite Htr. f_equal.
    now apply (range_items_all_skipped chart a position intersect). }
  assert (Hi : forall position a, getIntersectItems chart position a = Some []).
  { intros position a. unfold getIntersectItems. destruct (negb _); [reflexivity|].
    now rewrite optimizedEvaluateItems_fold, Hrange. }
  assert (Hn : forall position a intersect,
            getNearestItems chart position a intersect = Some []).
  { intros position a intersect. unfold getNearestItems.
    destruct (negb _); [reflexivity|].
    now rewrite optimizedEvaluateItems_fold, Hrange. }
  destruct mode; simpl.
  - unfold modes_index, items_at. destruct (intersect options); now rewrite ?Hi, ?Hn.
  - unfold modes_dataset, items_at. destruct (intersect options); now rewrite ?Hi, ?Hn.
  - apply Hi.
  - apply Hn.
  - rewrite modes_x_filter. cbv zeta. rewrite visible_items_all_skipped by assumption.
    now destruct (_ && _).
  - rewrite modes_y_filter. cbv zeta. rewrite visible_items_all_skipped by assumption.
    now destruct (_ && _).
Qed.

(** ** Point mode *)

Lemma intersect_fold (position : Position) (tr acc : list Item) :
  fold_left (call (intersect_handler position)) tr acc
  = acc ++ filter (fun it => inRange (element it) (pos_x position) (pos_y position)) tr.
Proof.
  revert acc. induction tr as [|it rest IH]; intros acc; simpl.
  - now rewrite app_nil_r.
  - rewrite IH. unfold call, intersect_handler. destruct it as [el ds i]. simpl.
    destruct (inRange el (pos_x position) (pos_y position)); [|reflexivity].
    unfold push. now rewrite <- app_assoc.
Qed.




(** ** Dataset mode *)

Lemma get_app_l {A : Type} (l1 l2 : list A) (k : Z) :
  k < JS.length l1 -> JS.get (l1 ++ l2) k = JS.get l1 k.
Proof.
  unfold JS.get, JS.length. intros H. destruct (k <? 0) eqn:Hk; [reflexivity|].
  apply Z.ltb_ge in Hk. apply nth_error_app1. lia.
Qed.

Lemma dataset_items_get (ds : Z) (suf pre : list Element) (acc : list Item) :
  JS.length acc = JS.length pre ->
  (forall k el, JS.get pre k = Some el -> JS.get acc k = Some (mkItem el ds k)) ->
  JS.length (modes_dataset_items ds suf (JS.length pre) acc) = JS.length (pre ++ suf) /\
  forall k el, JS.get (pre ++ suf) k = Some el ->
    JS.get (modes_dataset_items ds suf (JS.length pre) acc) k = Some (mkItem el ds k).
Proof.
  revert pre acc. induction suf as [|e rest IH]; intros pre acc Hlen Hget; simpl.
  - rewrite app_nil_r. auto.
  - rewrite <- length_app_one with (a := e).
    replace (pre ++ e :: rest) with ((pre ++ [e]) ++ rest) by now rewrite <- app_assoc.
    apply IH.
    + unfold push. rewrite !length_app_one. lia.
    + intros k el Hk. unfold push.
      destruct (Z_lt_le_dec k (JS.length pre)) as [Hlt|Hge].
      * rewrite get_app_l in Hk by assumption.
        rewrite get_app_l by lia. auto.
      * pose proof (get_bounds _ _ _ Hk) as Hb. rewrite length_app_one in Hb.
        assert (k = JS.length pre) as -> by lia.
        rewrite get_app_length in Hk. injection Hk as <-.
        rewrite <- Hlen. apply get_app_length.
Qed.

(** X8.  When the initial search of dataset mode has a first match, the
    result has one match per element of the dataset of that first match,
    as [chart.getDatasetMeta] gives it: as many matches as elements, the
    match at position [k] holding element [k], the dataset index of the
    first match and the index [k]. *)
Theorem dataset_mode_whole_dataset
    (chart : Chart) (e : Event) (options : Options) (first : Item) (others : list Item) :
  items_at chart (getRelativePosition e chart) (JS.or_default (opt_axis options) "xy")
    (intersect options) = Some (first :: others) ->
  exists result,
    modes_dataset chart e options = Some result /\
    JS.length result
    = JS.length (data (getDatasetMeta chart (datasetIndex first))) /\
    forall k el,
      JS.get (data (getDatasetMeta chart (datasetIndex first))) k = Some el ->
      JS.get result k = Some (mkItem el (datasetIndex first) k).
Proof.
  intros Hsearch. unfold modes_dataset. rewrite Hsearch.
  eexists. split; [reflexivity|].
  apply (dataset_items_get (datasetIndex first) _ [] []); [reflexivity|].
  intros k el Hk. apply get_bounds in Hk. unfold JS.length in Hk. simpl in Hk. lia.
Qed.

(** ** Order of the results *)

Lemma subsequence_nil_l {A : Type} (l : list A) : subsequence [] l.
Proof. induction l; now constructor. Qed.

Lemma subsequence_refl {A : Type} (l : list A) : subsequence l l.
Proof. induction l; now constructor. Qed.

Lemma subsequence_app2 {A : Type} (a b c d : list A) :
  subsequence a b -> subsequence c d -> subsequence (a ++ c) (b ++ d).
Proof. intros Hab Hcd. induction Hab; simpl; [assumption| |]; now constructor. Qed.

Lemma subsequence_trans {A : Type} (a b c : list A) :
  subsequence a b -> subsequence b c -> subsequence a c.
Proof.
  intros Hab Hbc. revert a Hab. induction Hbc; intros a Hab.
  - assumption.
  - constructor. now apply IHHbc.
  - inversion Hab; subst.
    + apply subsequence_skip. now apply IHHbc.
    + apply subsequence_keep. now apply IHHbc.
Qed.

Lemma subsequence_filter {A : Type} (p : A -> bool) (l : list A) :
  subsequence (filter p l) l.
Proof. induction l as [|a l IH]; simpl; [constructor|]. destruct (p a); now constructor. Qed.

Lemma evaluate_from_record_split idx (pre suf : list Element) (j : Z) :
  evaluate_from record idx (pre ++ suf) j []
  = evaluate_from record idx pre j []
    ++ evaluate_from record idx suf (j + JS.length pre) [].
Proof.
  revert j. induction pre as [|el pre' IH]; intros j; simpl.
  - unfold JS.length. simpl. now rewrite Z.add_0_r.
  - rewrite evaluate_from_record_app, IH.
    rewrite (evaluate_from_record_app idx pre' (j + 1) (if skip el then [] else _)).
    rewrite <- app_assoc. do 3 f_equal. unfold JS.length. simpl. lia.
Qed.

Lemma evaluate_range_subsequence idx (count : nat) (pre suf : list Element)
    (tr : list Item) :
  evaluate_range record idx (pre ++ suf) (JS.length pre) count [] = Some tr ->
  subsequence tr (evaluate_from record idx suf (JS.length pre) []).
Proof.
  revert pre suf tr. induction count as [|n IH]; intros pre suf tr; simpl.
  - intros [= <-]. apply subsequence_nil_l.
  - destruct suf as [|el suf'].
    + rewrite get_out_of_bounds; [discriminate|].
      right. rewrite app_nil_r. lia.
    + rewrite get_app_length, evaluate_range_record_app.
      rewrite <- length_app_one with (a := el).
      replace (pre ++ el :: suf') with ((pre ++ [el]) ++ suf')
        by now rewrite <- app_assoc.
      destruct (evaluate_range record idx ((pre ++ [el]) ++ suf')
                  (JS.length (pre ++ [el])) n []) as [tr'|] eqn:Htr; [|discriminate].
      simpl. intros [= <-].
      rewrite (evaluate_from_record_app idx suf' _ (if skip el then [] else _)).
      apply subsequence_app2; [apply subsequence_refl|].
      rewrite <- length_app_one with (a := el). now apply IH.
Qed.

Lemma firstn_length_Z {A : Type} (l : list A) (j : Z) :
  0 <= j <= JS.length l -> JS.length (firstn (Z.to_nat j) l) = j.
Proof. unfold JS.length. intros H. rewrite length_firstn. lia. Qed.

Lemma evaluate_range_subsequence_all idx (els : list Element) (j : Z) (count : nat)
    (tr : list Item) :
  evaluate_range record idx els j count [] = Some tr ->
  subsequence tr (evaluate_from record idx els 0 []).
Proof.
  intros H. destruct count as [|n].
  - simpl in H. injection H as <-. apply subsequence_nil_l.
  - assert (Hj : 0 <= j <= JS.length els).
    { simpl in H. destruct (JS.get els j) eqn:Hget; [|discriminate].
      apply get_bounds in Hget. lia. }
    pose proof (firstn_length_Z els j Hj) as Hlen.
    pose proof (firstn_skipn (Z.to_nat j) els) as Hsplit.
    remember (firstn (Z.to_nat j) els) as pre eqn:Hpre.
    remember (skipn (Z.to_nat j) els) as suf eqn:Hsuf.
    clear Hpre Hsuf Hj. subst els j.
    apply evaluate_range_subsequence in H.
    rewrite evaluate_from_record_split. simpl.
    apply (subsequence_app2 [] _ tr _); [apply subsequence_nil_l|exact H].
Qed.

Lemma evaluate_metaset_subsequence (m : Metaset) a value intersect (tr : list Item) :
  evaluate_metaset record m a value intersect [] = Some tr ->
  subsequence tr (evaluate_from record (index m) (data m) 0 []).
Proof. apply evaluate_range_subsequence_all. Qed.

Lemma range_items_subsequence chart a position intersect (tr : list Item) :
  range_items chart a position intersect = Some tr ->
  subsequence tr (visible_items chart).
Proof.
  unfold range_items, visible_items, optimizedEvaluateItems, evaluateAllVisibleItems.
  generalize (JS.ToNumber (position_prop position a)) as value. intros value.
  revert tr. induction (_getSortedVisibleDatasetMetas chart) as [|m rest IH];
    intros tr; simpl.
  - intros [= <-]. constructor.
  - destruct (evaluate_metaset record m a value intersect []) as [tr1|] eqn:H1;
      [|discriminate].
    rewrite evaluate_metasets_record_app, fold_metasets_record_app.
    destruct (evaluate_metasets record rest a value intersect []) as [tr2|];
      [|discriminate].
    simpl. intros [= <-].
    apply subsequence_app2; [now apply evaluate_metaset_subsequence with a value intersect|].
    now apply IH.
Qed.

(** X9.  The range-restricted traversal, when it does not throw, visits a
    subsequence of the items the full traversal visits: the same order
    (datasets in visibility order, then elements by index), with the
    items outside the search ranges left out. *)
Theorem range_traversal_in_order
    (chart : Chart) (a : string) (position : Position) (intersect : bool)
    (tr : list Item) :
  optimizedEvaluateItems record chart a position intersect [] = Some tr ->
  subsequence tr (evaluateAllVisibleItems record chart []).
Proof. exact (range_items_subsequence chart a position intersect tr). Qed.

Lemma nearest_fold_subsequence (position : Position) (a : string) (intersect : bool)
    (tr : list Item) (s : float * list Item) :
  subsequence (snd (fold_left (call (nearest_handler position a intersect)) tr s))
    (snd s ++ tr).
Proof.
  revert s. induction tr as [|c rest IH]; intros s; cbn [fold_left].
  - rewrite app_nil_r. apply subsequence_refl.
  - eapply subsequence_trans; [apply IH|].
    rewrite nearest_step.
    destruct (considered position intersect c).
    + destruct (_ <? _)%float; [|destruct (_ =? _)%float]; cbn [snd].
      * apply (subsequence_app2 [] (snd s) (c :: rest) (c :: rest));
          [apply subsequence_nil_l|apply subsequence_refl].
      * unfold push. rewrite <- app_assoc. apply subsequence_refl.
      * apply subsequence_app2; [apply subsequence_refl|].
        constructor. apply subsequence_refl.
    + apply subsequence_app2; [apply subsequence_refl|].
      constructor. apply subsequence_refl.
Qed.

(** X10.  The results of modes point, nearest, x and y follow the order of
    the full traversal: each result is a subsequence of the non-skipped
    elements of the visible datasets, taken dataset by dataset in
    visibility order and by index within a dataset. *)
Theorem modes_results_in_order
    (mode : Mode) (chart : Chart) (e : Event) (options : Options)
    (result : list Item) :
  mode <> mode_index ->
  mode <> mode_dataset ->
  run_mode mode chart e options = Some result ->
  subsequence result (visible_items chart).
Proof.
  intros Hi Hd. destruct mode; simpl; try congruence.
  - unfold modes_point, getIntersectItems. destruct (negb _).
    + intros [= <-]. apply subsequence_nil_l.
    + rewrite optimizedEvaluateItems_fold.
      destruct (range_items chart _ _ true) as [tr|] eqn:Htr; [|discriminate].
      simpl. intros [= <-]. rewrite intersect_fold. simpl.
      eapply subsequence_trans; [apply subsequence_filter|].
      eapply range_items_subsequence, Htr.
  - unfold modes_nearest, getNearestItems. destruct (negb _).
    + intros [= <-]. apply subsequence_nil_l.
    + rewrite optimizedEvaluateItems_fold.
      destruct (range_items chart _ _ false) as [tr|] eqn:Htr; [|discriminate].
      simpl. intros [= <-].
      eapply subsequence_trans; [apply nearest_fold_subsequence|]. simpl.
      eapply range_items_subsequence, Htr.
  - intros [= <-]. rewrite modes_x_filter. cbv zeta.
    destruct (_ && _); [apply subsequence_nil_l|apply subsequence_filter].
  - intros [= <-]. rewrite modes_y_filter. cbv zeta.
    destruct (_ && _); [apply subsequence_nil_l|apply subsequence_filter].
Qed.

(** ** What nearest returns *)

Lemma finite_cmp_trans (m1 m2 m3 : positive) (e1 e2 e3 : Z) (c : comparison) :
  c <> Eq ->
  match e1 ?= e2 with Lt => Lt | Gt => Gt | Eq => Pos.compare_cont Eq m1 m2 end = c ->
  match e2 ?= e3 with Lt => Lt | Gt => Gt | Eq => Pos.compare_cont Eq m2 m3 end = c ->
  match e1 ?= e3 with Lt => Lt | Gt => Gt | Eq => Pos.compare_cont Eq m1 m3 end = c.
Proof.
  intros Hc.
  change (Pos.compare_cont Eq m1 m2) with (m1 ?= m2)%positive.
  change (Pos.compare_cont Eq m2 m3) with (m2 ?= m3)%positive.
  change (Pos.compare_cont Eq m1 m3) with (m1 ?= m3)%positive.
  destruct (Z.compare_spec e1 e2), (Z.compare_spec e2 e3), (Z.compare_spec e1 e3);
    subst; try lia; intros <-; try congruence; try (intros; reflexivity);
    try (intros H; discriminate H).
  all: destruct (Pos.compare_spec m1 m2), (Pos.compare_spec m2 m3),
         (Pos.compare_spec m1 m3); subst; try lia; try congruence;
       intros; try reflexivity; try discriminate.
Qed.

Lemma SFcompare_Lt_trans (a b c : spec_float) :
  SFcompare a b = Some Lt -> SFcompare b c = Some Lt -> SFcompare a c = Some Lt.
Proof.
  destruct a as [sa|sa| |sa ma ea], b as [sb|sb| |sb mb eb], c as [sc|sc| |sc mc ec];
    simpl; try discriminate; try reflexivity;
    try destruct sa; try destruct sb; try destruct sc;
    try discriminate; try reflexivity.
  - intros [= H1] [= H2]. f_equal.
    assert (H1' : match ea ?= eb with Lt => Lt | Gt => Gt
                  | Eq => Pos.compare_cont Eq ma mb end = Gt)
      by (destruct (ea ?= eb); try discriminate; try reflexivity;
          destruct (Pos.compare_cont Eq ma mb); simpl in *; congruence).
    assert (H2' : match eb ?= ec with Lt => Lt | Gt => Gt
                  | Eq => Pos.compare_cont Eq mb mc end = Gt)
      by (destruct (eb ?= ec); try discriminate; try reflexivity;
          destruct (Pos.compare_cont Eq mb mc); simpl in *; congruence).
    pose proof (finite_cmp_trans ma mb mc ea eb ec Gt ltac:(discriminate) H1' H2') as H.
    destruct (ea ?= ec); try discriminate; try reflexivity. now rewrite H.
  - intros [= H1] [= H2]. f_equal.
    exact (finite_cmp_trans ma mb mc ea eb ec Lt ltac:(discriminate) H1 H2).
Qed.

Lemma float_ltb_trans (a b c : float) :
  (a <? b)%float = true -> (b <? c)%float = true -> (a <? c)%float = true.
Proof.
  to_spec. intros H1 H2.
  destruct (SFcompare (Prim2SF a) (Prim2SF b)) as [[]|] eqn:E1; try discriminate.
  destruct (SFcompare (Prim2SF b) (Prim2SF c)) as [[]|] eqn:E2; try discriminate.
  now rewrite (SFcompare_Lt_trans _ _ _ E1 E2).
Qed.

Lemma float_ltb_irrefl (a : float) : (a <? a)%float = false.
Proof.
  destruct (a <? a)%float eqn:E; [|reflexivity].
  pose proof (float_eqb_refl a (float_ltb_not_nan _ _ E)) as H.
  rewrite (float_ltb_not_eqb _ _ E) in H. discriminate.
Qed.

Lemma float_eqb_trans (a b c : float) :
  (a =? b)%float = true -> (b =? c)%float = true -> (a =? c)%float = true.
Proof.
  to_spec. intros H1 H2.
  rewrite (SFcompare_Eq_l (Prim2SF a) (Prim2SF b)); [assumption|].
  now destruct (SFcompare (Prim2SF a) (Prim2SF b)) as [[]|].
Qed.

Lemma float_eqb_not_nan (a b : float) : (a =? b)%float = true -> is_nan a = false.
Proof.
  intros H. unfold is_nan.
  rewrite (float_eqb_trans a b a H); [reflexivity|]. now rewrite float_eqb_sym.
Qed.

Section NearestSound.

Variables (position : Position) (a : string) (intersect : bool).

Local Abbreviation step := (call (nearest_handler position a intersect)).
Local Abbreviation dist := (distance_to position a).
Local Abbreviation ok := (considered position intersect).

(** The state of the search after the items [seen]: every held item was
    seen, is considered and lies at the minimum; nothing seen and
    considered is strictly nearer than the minimum. *)
Lemma nearest_sound (tr seen : list Item) (m : float) (items : list Item) :
  (forall it, In it items ->
     In it seen /\ ok it = true /\ (dist it =? m)%float = true) ->
  (forall c, In c seen -> ok c = true -> (dist c <? m)%float = false) ->
  (forall it, In it (snd (fold_left step tr (m, items))) ->
     In it (seen ++ tr) /\ ok it = true
     /\ (dist it =? fst (fold_left step tr (m, items)))%float = true) /\
  (forall c, In c (seen ++ tr) -> ok c = true ->
     (dist c <? fst (fold_left step tr (m, items)))%float = false).
Proof.
  revert seen m items. induction tr as [|c rest IH]; intros seen m items Hheld Hmin;
    cbn [fold_left].
  - rewrite app_nil_r. auto.
  - replace (seen ++ c :: rest) with ((seen ++ [c]) ++ rest)
      by now rewrite <- app_assoc.
    rewrite nearest_step. cbn [fst snd].
    destruct (ok c) eqn:Hok; [destruct (dist c <? m)%float eqn:Hlt;
                               [|destruct (dist c =? m)%float eqn:Heq]|];
      apply IH.
    + intros it [<-|[]]. repeat split; [apply in_or_app; right; now left|assumption|].
      apply float_eqb_refl. now apply float_ltb_not_nan with m.
    + intros c' Hin Hok'. apply in_app_or in Hin. destruct Hin as [Hin|[<-|[]]].
      * destruct (dist c' <? dist c)%float eqn:E; [|reflexivity].
        rewrite <- (Hmin c' Hin Hok'). symmetry. now apply float_ltb_trans with (dist c).
      * apply float_ltb_irrefl.
    + intros it Hin. unfold push in Hin. apply in_app_or in Hin.
      destruct Hin as [Hin|[<-|[]]].
      * destruct (Hheld it Hin) as (? & ? & ?). repeat split; auto.
        apply in_or_app. now left.
      * repeat split; auto. apply in_or_app. right. now left.
    + intros c' Hin Hok'. apply in_app_or in Hin. destruct Hin as [Hin|[<-|[]]]; auto.
    + intros it Hin. destruct (Hheld it Hin) as (? & ? & ?). repeat split; auto.
      apply in_or_app. now left.
    + intros c' Hin Hok'. apply in_app_or in Hin. destruct Hin as [Hin|[<-|[]]]; auto.
    + intros it Hin. destruct (Hheld it Hin) as (? & ? & ?). repeat split; auto.
      apply in_or_app. now left.
    + intros c' Hin Hok'. apply in_app_or in Hin. destruct Hin as [Hin|[<-|[]]]; auto.
      congruence.
Qed.

(** Once an item is held, or a considered item with a numeric distance
    has been seen, the search holds at least one item. *)
Lemma nearest_nonempty (tr : list Item) (m : float) (items : list Item) :
  is_nan m = false ->
  items <> [] \/
  (exists c, In c tr /\ ok c = true /\ is_nan (dist c) = false) ->
  (items = [] -> m = infinity) ->
  snd (fold_left step tr (m, items)) <> [].
Proof.
  revert m items. induction tr as [|c rest IH]; intros m items Hm H Hinit;
    cbn [fold_left].
  - destruct H as [H|(c & [] & _)]. exact H.
  - rewrite nearest_step. cbn [fst snd].
    destruct (ok c) eqn:Hok.
    + destruct (dist c <? m)%float eqn:Hlt.
      * apply IH; [now apply float_ltb_not_nan with m|left; discriminate|discriminate].
      * destruct (dist c =? m)%float eqn:Heq.
        -- apply IH; auto.
           ++ left. unfold push. now destruct items.
           ++ unfold push. now destruct items.
        -- apply IH; auto.
           destruct H as [H|(c' & [<-|Hin] & Hok' & Hnan)]; eauto.
           left. intros ->. rewrite (Hinit eq_refl) in *.
           destruct (float_trichotomy _ _ Hnan Hm (float_ltb_infinity _));
             congruence.
    + apply IH; auto.
      destruct H as [H|(c' & [<-|Hin] & Hok' & Hnan)]; eauto. congruence.
Qed.

End NearestSound.

(** X7.  Every match nearest mode returns is a candidate the search
    considers, no considered candidate is strictly nearer to the position,
    and all returned matches are at the same distance under [===]. *)
Theorem nearest_returns_only_nearest
    (chart : Chart) (e : Event) (options : Options) (items : list Item) (it : Item) :
  modes_nearest chart e options = Some items ->
  In it items ->
  exists candidates,
    range_items chart (JS.or_default (opt_axis options) "xy")
      (getRelativePosition e chart) false = Some candidates /\
    In it candidates /\
    considered (getRelativePosition e chart) (intersect options) it = true /\
    (forall c, In c candidates ->
       considered (getRelativePosition e chart) (intersect options) c = true ->
       (distance_to (getRelativePosition e chart)
          (JS.or_default (opt_axis options) "xy") c
        <? distance_to (getRelativePosition e chart)
             (JS.or_default (opt_axis options) "xy") it)%float = false) /\
    (forall it', In it' items ->
       (distance_to (getRelativePosition e chart)
          (JS.or_default (opt_axis options) "xy") it
        =? distance_to (getRelativePosition e chart)
             (JS.or_default (opt_axis options) "xy") it')%float = true).
Proof.
  unfold modes_nearest, getNearestItems.
  destruct (negb _); [intros [= <-] []|].
  rewrite optimizedEvaluateItems_fold.
  destruct (range_items chart _ _ false) as [tr|] eqn:Htr; [|discriminate].
  simpl. intros [= <-] Hin. exists tr. split; [reflexivity|].
  destruct (nearest_sound (getRelativePosition e chart)
              (JS.or_default (opt_axis options) "xy") (intersect options)
              tr [] infinity [])
    as [Hheld Hmin]; [intros ? []|intros ? []|].
  simpl in Hheld, Hmin.
  destruct (Hheld it Hin) as (Hcand & Hok & Heq).
  repeat split; try assumption.
  - intros c Hc Hokc.
    destruct (_ <? _)%float eqn:E; [|reflexivity].
    rewrite <- (Hmin c Hc Hokc). symmetry.
    now apply float_eqb_ltb_r with (distance_to (getRelativePosition e chart)
                                      (JS.or_default (opt_axis options) "xy") it).
  - intros it' Hin'. destruct (Hheld it' Hin') as (_ & _ & Heq').
    apply float_eqb_trans with (1 := Heq). now rewrite float_eqb_sym.
Qed.

(** X14.  Nearest mode at a position inside the chart area returns at
    least one match as soon as the traversal visits a considered candidate
    whose distance is a number. *)
Theorem nearest_finds_a_match
    (chart : Chart) (e : Event) (options : Options)
    (candidates : list Item) (c : Item) :
  _isPointInArea (getRelativePosition e chart) (chartArea chart) = true ->
  range_items chart (JS.or_default (opt_axis options) "xy")
    (getRelativePosition e chart) false = Some candidates ->
  In c candidates ->
  considered (getRelativePosition e chart) (intersect options) c = true ->
  is_nan (distance_to (getRelativePosition e chart)
            (JS.or_default (opt_axis options) "xy") c) = false ->
  exists first others, modes_nearest chart e options = Some (first :: others).
Proof.
  intros Harea Hcands Hin Hok Hnan.
  unfold modes_nearest, getNearestItems.
  rewrite Harea, optimizedEvaluateItems_fold, Hcands. simpl.
  pose proof (nearest_nonempty (getRelativePosition e chart)
                (JS.or_default (opt_axis options) "xy") (intersect options)
                candidates infinity [] eq_refl) as H.
  destruct (snd (fold_left _ candidates (infinity, []))) as [|first others]; eauto.
  exfalso. apply H; [right; eauto|reflexivity|reflexivity].
Qed.

(** ** Coordinates a mode does not read *)

Lemma fold_call_ext {St : Type} (h h' : Element -> Z -> Z -> St -> St)
    (tr : list Item) (s : St) :
  (forall el ds i s, h el ds i s = h' el ds i s) ->
  fold_left (call h) tr s = fold_left (call h') tr s.
Proof.
  intros Hext. revert s. induction tr as [|it rest IH]; intros s; simpl;
    [reflexivity|].
  unfold call at 2 4. now rewrite Hext, IH.
Qed.

Lemma distance_x_only (p p' c : Position) :
  pos_x p = pos_x p' ->
  getDistanceMetricForAxis "x" p c = getDistanceMetricForAxis "x" p' c.
Proof.
  intros Hx. unfold getDistanceMetricForAxis.
  change (JS.has_char "x" "x") with true. change (JS.has_char "x" "y") with false.
  cbv beta iota zeta. now rewrite Hx.
Qed.

Lemma getNearestItems_x_only (chart : Chart) (p p' : Position) :
  pos_x p = pos_x p' ->
  _isPointInArea p (chartArea chart) = _isPointInArea p' (chartArea chart) ->
  getNearestItems chart p "x" false = getNearestItems chart p' "x" false.
Proof.
  intros Hx Harea. unfold getNearestItems. rewrite Harea.
  destruct (negb _); [reflexivity|].
  rewrite !optimizedEvaluateItems_fold.
  assert (range_items chart "x" p false = range_items chart "x" p' false) as ->.
  { unfold range_items, optimizedEvaluateItems, position_prop. simpl. now rewrite Hx. }
  destruct (range_items chart "x" p' false) as [tr|]; [|reflexivity].
  simpl. f_equal. f_equal. apply fold_call_ext.
  intros el ds i [m items]. unfold nearest_handler. simpl.
  now rewrite (distance_x_only p p' _ Hx).
Qed.

(** X11.  Index mode on axis ['x'] (its default) without [intersect]
    reads only the x coordinate of the position: two positions with the
    same x and the same chart-area verdict give the same result. *)
Theorem index_mode_reads_x_only
    (chart : Chart) (x y y' : float) (options : Options) :
  intersect options = false ->
  JS.or_default (opt_axis options) "x" = "x"%string ->
  _isPointInArea {| pos_x := x; pos_y := y |} (chartArea chart)
  = _isPointInArea {| pos_x := x; pos_y := y' |} (chartArea chart) ->
  modes_index chart (IEvent x y) options = modes_index chart (IEvent x y') options.
Proof.
  intros Hi Hax Harea. unfold modes_index, items_at. rewrite Hi, Hax. simpl.
  now rewrite (getNearestItems_x_only chart {| pos_x := x; pos_y := y |}
                 {| pos_x := x; pos_y := y' |} eq_refl Harea).
Qed.

(** X13.  Without [intersect], mode x reads neither the y coordinate nor
    the chart area, and mode y neither the x coordinate nor the chart
    area: the result is the same at every position with the same x
    (respectively y). *)
Theorem axis_modes_read_one_coordinate
    (chart : Chart) (x y x' y' : float) (options : Options) :
  intersect options = false ->
  modes_x chart (IEvent x y) options = modes_x chart (IEvent x y') options /\
  modes_y chart (IEvent x y) options = modes_y chart (IEvent x' y) options.
Proof.
  intros Hi. rewrite !modes_x_filter, !modes_y_filter. cbv zeta.
  rewrite Hi. simpl. split; reflexivity.
Qed.

(** ** An axis without x and y *)

Lemma distance_without_axis (a : string) (p c : Position) :
  JS.has_char a "x" = false -> JS.has_char a "y" = false ->
  getDistanceMetricForAxis a p c = 0%float.
Proof.
  intros Hx Hy. unfold getDistanceMetricForAxis. rewrite Hx, Hy. reflexivity.
Qed.

Section WithoutAxis.

Variables (position : Position) (a : string) (intersect : bool).
Hypothesis no_x : JS.has_char a "x" = false.
Hypothesis no_y : JS.has_char a "y" = false.

Local Abbreviation step := (call (nearest_handler position a intersect)).
Local Abbreviation ok := (considered position intersect).

Lemma nearest_step_without_axis (s : float * list Item) (c : Item) :
  step s c =
  if ok c then
    if (0 <? fst s)%float then (0%float, [c])
    else if (0 =? fst s)%float then (fst s, push (snd s) c)
    else s
  else s.
Proof.
  rewrite nearest_step. unfold distance_to.
  now rewrite distance_without_axis.
Qed.

Lemma nearest_fold_at_zero (tr items : list Item) :
  fold_left step tr (0%float, items) = (0%float, items ++ filter ok tr).
Proof.
  revert items. induction tr as [|c rest IH]; intros items; cbn [fold_left filter].
  - now rewrite app_nil_r.
  - rewrite nearest_step_without_axis. cbn [fst snd].
    destruct (ok c); [|apply IH].
    change (0 <? 0)%float with false. change (0 =? 0)%float with true.
    cbv iota. rewrite IH. unfold push. now rewrite <- app_assoc.
Qed.

Lemma nearest_fold_without_axis (tr : list Item) :
  snd (fold_left step tr (infinity, [])) = filter ok tr.
Proof.
  induction tr as [|c rest IH]; cbn [fold_left filter]; [reflexivity|].
  rewrite nearest_step_without_axis. cbn [fst snd].
  destruct (ok c); [|exact IH].
  change (0 <? infinity)%float with true. cbv iota.
  now rewrite nearest_fold_at_zero.
Qed.

End WithoutAxis.

(** X12.  With an axis string that holds neither [x] nor [y] (such as
    ['r']), every distance is 0, and the nearest search at a position
    inside the chart area returns every candidate it considers, in
    traversal order. *)
Theorem nearest_without_axis
    (chart : Chart) (position : Position) (a : string) (intersect : bool)
    (candidates : list Item) :
  JS.has_char a "x" = false ->
  JS.has_char a "y" = false ->
  _isPointInArea position (chartArea chart) = true ->
  range_items chart a position false = Some candidates ->
  getNearestItems chart position a intersect
  = Some (filter (considered position intersect) candidates).
Proof.
  intros Hx Hy Harea Hcands. unfold getNearestItems.
  rewrite Harea, optimizedEvaluateItems_fold, Hcands. simpl.
  now rewrite nearest_fold_without_axis.
Qed.

End Interaction.

Arguments IEvent {DomEvent} x y.
Arguments Raw {DomEvent} e.

(** ** The modelled key lookups keep the bracketing contract *)

Lemma run_length_prefix {A : Type} (p : A -> bool) (l : list A) (k : nat) (x : A) :
  (k < SpecHelpers.run_length p l)%nat -> nth_error l k = Some x -> p x = true.
Proof.
  revert k. induction l as [|a rest IH]; intros k; simpl; [lia|].
  destruct (p a) eqn:Hp; [|lia].
  destruct k as [|k]; simpl.
  - now intros _ [= <-].
  - intros Hk. apply IH. lia.
Qed.

Lemma bracket_brackets (below above : float -> bool) (table : list Element) (a : string) :
  brackets below above table a (SpecHelpers.bracket below above table a).
Proof.
  intros i el Hget. pose proof (get_bounds _ _ _ Hget) as Hi.
  unfold JS.get in Hget. destruct (i <? 0) eqn:Hneg; [discriminate|].
  unfold SpecHelpers.bracket, JS.length in *. simpl. split; intros H.
  - apply (run_length_prefix (fun el => below (key el a)) table (Z.to_nat i));
      [lia|assumption].
  - apply (run_length_prefix (fun el => above (key el a)) (rev table)
             (List.length table - S (Z.to_nat i))); [lia|].
    rewrite nth_error_rev.
    destruct (Nat.ltb_spec (List.length table - S (Z.to_nat i)) (List.length table));
      [|lia].
    rewrite <- Hget. f_equal. lia.
Qed.

Lemma SpecHelpers_lookup_contract : lookup_contract SpecHelpers._lookupByKey.
Proof. intros table a value _. apply bracket_brackets. Qed.

Lemma SpecHelpers_rlookup_contract : rlookup_contract SpecHelpers._rlookupByKey.
Proof. intros table a value _. apply bracket_brackets. Qed.

Lemma SpecHelpers_lookup_in_bounds : lookup_in_bounds SpecHelpers._lookupByKey.
Proof. intros table a value. unfold SpecHelpers._lookupByKey, SpecHelpers.bracket. simpl. lia. Qed.

Lemma SpecHelpers_rlookup_in_bounds : lookup_in_bounds SpecHelpers._rlookupByKey.
Proof. intros table a value. unfold SpecHelpers._rlookupByKey, SpecHelpers.bracket. simpl. lia. Qed.

(** ** The module on the sample charts *)

Local Abbreviation search :=
  (binarySearch SpecHelpers._lookupByKey SpecHelpers._rlookupByKey).
Local Abbreviation run :=
  (run_mode SpecHelpers._lookupByKey SpecHelpers._rlookupByKey
     SpecHelpers._isPointInArea Position Sample.dom_position).
Local Abbreviation at_ x y := (@IEvent Position x y).
Local Abbreviation opts a i := (mkOptions a i).

(** The scenario of the specification: elements at x = 10, 20, 30, the
    position [(21, 0)], axis ['x'], mode nearest: the element at x = 20
    alone. *)
Example nearest_scenario :
  run mode_nearest Sample.line_chart (at_ 21 0) (opts (Some "x"%string) false)
  = Some [mkItem (Sample.dot 20 50) 0 1].
Proof. vm_compute. reflexivity. Qed.

(** The same dataset and a position outside the chart area. *)
Example outside_scenario :
  map (fun mode => run mode Sample.line_chart (at_ 200 0) (opts None false))
    [mode_index; mode_dataset; mode_point; mode_nearest; mode_x; mode_y]
  = [Some []; Some []; Some []; Some []; Some []; Some []].
Proof. vm_compute. reflexivity. Qed.

(** Mode dataset at a position nearest to an element of the second
    dataset: the whole second dataset, nothing of the first. *)
Example dataset_scenario :
  option_map (map (fun it => (datasetIndex it, item_index it)))
    (run mode_dataset Sample.two_series (at_ 30 58) (opts None false))
  = Some [(1, 0); (1, 1); (1, 2)].
Proof. vm_compute. reflexivity. Qed.

(** ** The properties on the sample charts *)

(** C1, failing input.  Mode dataset returns the skipped element of the
    dataset: its loop over [data] does not test [skip]. *)
Theorem dataset_mode_returns_skipped :
  run mode_dataset Sample.gapped_chart (at_ 10 50) (opts None true)
  = Some [mkItem (Sample.dot 10 50) 0 0; mkItem (Sample.gap 20 50) 0 1;
          mkItem (Sample.dot 30 50) 0 2] /\
  skip (Sample.gap 20 50) = true.
Proof. split; vm_compute; reflexivity. Qed.

Lemma SpecHelpers_rejects_outside (point : Position) (area : ChartArea) :
  strictly_outside point area = true ->
  SpecHelpers._isPointInArea point area = false.
Proof.
  unfold strictly_outside, SpecHelpers._isPointInArea. intros H.
  repeat (apply orb_prop in H; destruct H as [H|H]);
    apply float_ltb_leb_false in H; rewrite H;
    now rewrite ?andb_false_r.
Qed.

(** With the point-in-rectangle test, modes index, dataset, point and
    nearest return the empty result at every position strictly outside
    the chart area. *)
Lemma gated_modes_outside_rectangle
    (mode : Mode) (chart : Chart) (x y : float) (options : Options) :
  mode <> mode_x ->
  mode <> mode_y ->
  strictly_outside {| pos_x := x; pos_y := y |} (chartArea chart) = true ->
  run mode chart (at_ x y) options = Some [].
Proof.
  intros Hx Hy Hout. apply area_gating; try assumption.
  now apply SpecHelpers_rejects_outside.
Qed.

(** C2, failing input.  At positions strictly outside the chart area,
    mode x returns the element in x range and mode y the elements in y
    range, where modes index, dataset, point and nearest return the empty
    result: modes x and y never test the chart area. *)
Theorem axis_modes_ignore_chart_area :
  strictly_outside {| pos_x := 20; pos_y := 500 |} (chartArea Sample.line_chart) = true /\
  run mode_x Sample.line_chart (at_ 20 500) (opts None false)
  = Some [mkItem (Sample.dot 20 50) 0 1] /\
  strictly_outside {| pos_x := 500; pos_y := 50 |} (chartArea Sample.line_chart) = true /\
  run mode_y Sample.line_chart (at_ 500 50) (opts None false)
  = Some [mkItem (Sample.dot 10 50) 0 0; mkItem (Sample.dot 20 50) 0 1;
          mkItem (Sample.dot 30 50) 0 2] /\
  map (fun mode => run mode Sample.line_chart (at_ 20 500) (opts None false))
    [mode_index; mode_dataset; mode_point; mode_nearest]
  = [Some []; Some []; Some []; Some []].
Proof. repeat (split; [vm_compute; reflexivity|]). vm_compute. reflexivity. Qed.

Lemma area_gating_witness :
  run mode_nearest Sample.line_chart (at_ 200 0) (opts None false) = Some [].
Proof.
  apply area_gating; [discriminate|discriminate|].
  vm_compute. reflexivity.
Defined.

(** C3, counterexample.  With [intersect] requested and no shared
    options, the range is the full range and not the result of the
    exact-value lookup. *)
Lemma intersect_fallback_is_not_lookup :
  search Sample.line "x" 21%float true = {| lo := 0; hi := 2 |} /\
  search Sample.line "x" 21%float false = {| lo := 1; hi := 2 |} /\
  search Sample.line "x" 21%float true
  <> SpecHelpers._lookupByKey (data Sample.line) "x" 21%float.
Proof. split; [|split]; vm_compute; [reflexivity|reflexivity|discriminate]. Qed.

Lemma binarySearch_intersect_fallback_witness :
  search Sample.line "x" 21%float true = full_range Sample.line.
Proof.
  apply binarySearch_intersect_fallback. left. reflexivity.
Defined.

(** C4, failing input.  On a reversed index scale the ranged search takes
    [lo] from the lookup of [value - range] and [hi] from the lookup of
    [value + range]; for seven sorted points one pixel apart and a range
    of 2 the result is the empty range [{lo: 4, hi: 2}], which leaves out
    index 3, whose key equals the query value 20. *)
Theorem binarySearch_reversed_ranged_misses :
  rlookup_contract SpecHelpers._rlookupByKey /\
  sorted_along Sample.dense_reversed "x" = true /\
  search Sample.dense_reversed "x" 20%float true = {| lo := 4; hi := 2 |} /\
  option_map (fun el => key el "x" =? 20)%float (JS.get (data Sample.dense_reversed) 3)
  = Some true.
Proof.
  split; [exact SpecHelpers_rlookup_contract|].
  split; [|split]; vm_compute; reflexivity.
Qed.

Lemma binarySearch_fallback_full_range_witness :
  search Sample.line "y" 21%float false = {| lo := 0; hi := 2 |}.
Proof.
  apply (binarySearch_fallback_full_range SpecHelpers._lookupByKey
           SpecHelpers._rlookupByKey Sample.line "y" 21%float false).
  right. left. intros sc [= <-]. discriminate.
Defined.



Lemma axis_modes_intersect_gating_witness :
  modes_x Position Sample.dom_position Sample.line_chart (at_ 20 500) (opts None true) = []
  /\
  modes_y Position Sample.dom_position Sample.line_chart (at_ 20 500) (opts None true) = [].
Proof.
  apply (proj1 (axis_modes_intersect_gating SpecHelpers._lookupByKey
                  SpecHelpers._rlookupByKey Position Sample.dom_position
                  Sample.line_chart (at_ 20 500) (opts None true))).
  - reflexivity.
  - intros metaset i el [<-|[]] Hget _. apply get_In in Hget. simpl in Hget.
    destruct Hget as [<-|[<-|[<-|[]]]]; vm_compute; reflexivity.
Defined.

Lemma index_mode_alignment_witness :
  exists result,
    modes_index SpecHelpers._lookupByKey SpecHelpers._rlookupByKey
      SpecHelpers._isPointInArea Position Sample.dom_position
      Sample.two_series (at_ 30 40) (opts None false) = Some result /\
    forall meta el,
      In meta (_getSortedVisibleDatasetMetas Sample.two_series) ->
      JS.get (data meta) 2 = Some el ->
      skip el = false ->
      In (mkItem el (index meta) 2) result.
Proof.
  apply (index_mode_alignment SpecHelpers._lookupByKey SpecHelpers._rlookupByKey
           SpecHelpers._isPointInArea Position Sample.dom_position
           Sample.two_series (at_ 30 40) (opts None false)
           (mkItem (Sample.dot 30 40) 0 2) [mkItem (Sample.dot 30 60) 1 2]).
  vm_compute. reflexivity.
Defined.

Lemma index_mode_shares_index_witness :
  exists first others,
    items_at SpecHelpers._lookupByKey SpecHelpers._rlookupByKey
      SpecHelpers._isPointInArea Sample.two_series
      {| pos_x := 30; pos_y := 40 |} "x" false = Some (first :: others) /\
    (forall it,
       In it [mkItem (Sample.dot 30 40) 0 2; mkItem (Sample.dot 30 60) 1 2] ->
       item_index it = item_index first) /\
    subsequence [0; 1] [0; 1] /\
    (forall it,
       In it [mkItem (Sample.dot 30 40) 0 2; mkItem (Sample.dot 30 60) 1 2] ->
       exists meta, In meta (_getSortedVisibleDatasetMetas Sample.two_series) /\
         datasetIndex it = index meta /\
         JS.get (data meta) (item_index first) = Some (element it)).
Proof.
  apply (index_mode_shares_index SpecHelpers._lookupByKey SpecHelpers._rlookupByKey
           SpecHelpers._isPointInArea Position Sample.dom_position
           Sample.two_series (at_ 30 40) (opts None false)
           [mkItem (Sample.dot 30 40) 0 2; mkItem (Sample.dot 30 60) 1 2]).
  - vm_compute. reflexivity.
  - discriminate.
Defined.

Lemma xy_traversal_is_full_traversal_witness :
  range_items SpecHelpers._lookupByKey SpecHelpers._rlookupByKey Sample.two_series
    "xy" {| pos_x := 30; pos_y := 40 |} true
  = Some (visible_items Sample.two_series).
Proof.
  apply (xy_traversal_is_full_traversal SpecHelpers._lookupByKey
           SpecHelpers._rlookupByKey Sample.two_series
           {| pos_x := 30; pos_y := 40 |} true).
  intros metaset sc [<-|[<-|[]]] [= <-]; discriminate.
Defined.

(** ** Further properties on the sample charts *)

Lemma modes_skip_invariant_witness :
  skip (element (mkItem (Sample.dot 20 40) 0 1)) = false.
Proof.
  apply (modes_skip_invariant SpecHelpers._lookupByKey SpecHelpers._rlookupByKey
           SpecHelpers._isPointInArea Position Sample.dom_position
           mode_index Sample.two_series (at_ 20 40) (opts None false)
           [mkItem (Sample.dot 20 40) 0 1]).
  - discriminate.
  - vm_compute. reflexivity.
  - simpl. auto.
Defined.

Lemma binarySearch_contains_equal_keys_witness :
  lo (search Sample.bars "x" 20%float true) <= 1
  <= hi (search Sample.bars "x" 20%float true).
Proof.
  apply (binarySearch_contains_equal_keys SpecHelpers._lookupByKey
           SpecHelpers._rlookupByKey Sample.bars "x" 20%float true
           SpecHelpers_lookup_contract SpecHelpers_rlookup_contract)
    with (el := Sample.bar 20 4).
  - vm_compute. reflexivity.
  - intros sc range [= <-] _ _ _ _ [= <-]. split; vm_compute; reflexivity.
  - reflexivity.
  - vm_compute. reflexivity.
Defined.

Lemma modes_return_witness :
  exists result,
    run mode_point Sample.two_series (at_ 30 40) (opts (Some "x"%string) true)
    = Some result.
Proof.
  apply modes_return;
    [exact SpecHelpers_lookup_in_bounds|exact SpecHelpers_rlookup_in_bounds].
Defined.

Lemma optimizedEvaluateItems_throws_witness :
  optimizedEvaluateItems Sample.overshooting Sample.overshooting record
    Sample.line_chart "x" {| pos_x := 21; pos_y := 0 |} false [] = None.
Proof.
  apply (optimizedEvaluateItems_throws Sample.overshooting Sample.overshooting
           Sample.line_chart "x" {| pos_x := 21; pos_y := 0 |} false Sample.line).
  - left. reflexivity.
  - vm_compute. split; [discriminate|right; discriminate].
Defined.

Lemma all_skipped_nothing_hit_witness :
  run mode_x Sample.gaps_chart (at_ 10 50) (opts None false) = Some [].
Proof.
  apply all_skipped_nothing_hit;
    [exact SpecHelpers_lookup_in_bounds|exact SpecHelpers_rlookup_in_bounds|].
  intros metaset el [<-|[]] [<-|[<-|[]]]; reflexivity.
Defined.


Lemma nearest_returns_only_nearest_witness :
  exists candidates,
    range_items SpecHelpers._lookupByKey SpecHelpers._rlookupByKey Sample.tied_chart
      "xy" {| pos_x := 20; pos_y := 50 |} false = Some candidates /\
    In (mkItem (Sample.dot 10 50) 0 0) candidates /\
    considered {| pos_x := 20; pos_y := 50 |} false (mkItem (Sample.dot 10 50) 0 0)
    = true /\
    (forall c, In c candidates ->
       considered {| pos_x := 20; pos_y := 50 |} false c = true ->
       (distance_to {| pos_x := 20; pos_y := 50 |} "xy" c
        <? distance_to {| pos_x := 20; pos_y := 50 |} "xy"
             (mkItem (Sample.dot 10 50) 0 0))%float = false) /\
    (forall it', In it' [mkItem (Sample.dot 10 50) 0 0; mkItem (Sample.dot 30 50) 0 1] ->
       (distance_to {| pos_x := 20; pos_y := 50 |} "xy" (mkItem (Sample.dot 10 50) 0 0)
        =? distance_to {| pos_x := 20; pos_y := 50 |} "xy" it')%float = true).
Proof.
  apply (nearest_returns_only_nearest SpecHelpers._lookupByKey SpecHelpers._rlookupByKey
           SpecHelpers._isPointInArea Position Sample.dom_position
           Sample.tied_chart (at_ 20 50) (opts None false)
           [mkItem (Sample.dot 10 50) 0 0; mkItem (Sample.dot 30 50) 0 1]).
  - vm_compute. reflexivity.
  - simpl. auto.
Defined.

Lemma dataset_mode_whole_dataset_witness :
  exists result,
    modes_dataset SpecHelpers._lookupByKey SpecHelpers._rlookupByKey
      SpecHelpers._isPointInArea Position Sample.dom_position
      Sample.two_series (at_ 30 58) (opts None false) = Some result /\
    JS.length result = JS.length (data (getDatasetMeta Sample.two_series 1)) /\
    forall k el,
      JS.get (data (getDatasetMeta Sample.two_series 1)) k = Some el ->
      JS.get result k = Some (mkItem el 1 k).
Proof.
  apply (dataset_mode_whole_dataset SpecHelpers._lookupByKey SpecHelpers._rlookupByKey
           SpecHelpers._isPointInArea Position Sample.dom_position
           Sample.two_series (at_ 30 58) (opts None false)
           (mkItem (Sample.dot 30 60) 1 2) []).
  vm_compute. reflexivity.
Defined.

Lemma range_traversal_in_order_witness :
  subsequence [mkItem (Sample.dot 20 50) 0 1; mkItem (Sample.dot 30 50) 0 2]
    (evaluateAllVisibleItems record Sample.line_chart []).
Proof.
  apply (range_traversal_in_order SpecHelpers._lookupByKey SpecHelpers._rlookupByKey
           Sample.line_chart "x" {| pos_x := 21; pos_y := 0 |} false).
  vm_compute. reflexivity.
Defined.

Lemma modes_results_in_order_witness :
  subsequence [mkItem (Sample.dot 10 50) 0 0; mkItem (Sample.dot 30 50) 0 1]
    (visible_items Sample.tied_chart).
Proof.
  apply (modes_results_in_order SpecHelpers._lookupByKey SpecHelpers._rlookupByKey
           SpecHelpers._isPointInArea Position Sample.dom_position
           mode_nearest Sample.tied_chart (at_ 20 50) (opts None false)).
  - discriminate.
  - discriminate.
  - vm_compute. reflexivity.
Defined.

Lemma index_mode_reads_x_only_witness :
  modes_index SpecHelpers._lookupByKey SpecHelpers._rlookupByKey
    SpecHelpers._isPointInArea Position Sample.dom_position
    Sample.two_series (at_ 21 0) (opts None false)
  = modes_index SpecHelpers._lookupByKey SpecHelpers._rlookupByKey
      SpecHelpers._isPointInArea Position Sample.dom_position
      Sample.two_series (at_ 21 90) (opts None false).
Proof.
  apply index_mode_reads_x_only.
  - reflexivity.
  - reflexivity.
  - vm_compute. reflexivity.
Defined.

Lemma nearest_without_axis_witness :
  getNearestItems SpecHelpers._lookupByKey SpecHelpers._rlookupByKey
    SpecHelpers._isPointInArea Sample.line_chart {| pos_x := 21; pos_y := 0 |} "r" false
  = Some (filter (considered {| pos_x := 21; pos_y := 0 |} false)
            [mkItem (Sample.dot 10 50) 0 0; mkItem (Sample.dot 20 50) 0 1;
             mkItem (Sample.dot 30 50) 0 2]).
Proof.
  apply nearest_without_axis.
  - reflexivity.
  - reflexivity.
  - vm_compute. reflexivity.
  - vm_compute. reflexivity.
Defined.

Lemma axis_modes_read_one_coordinate_witness :
  modes_x Position Sample.dom_position Sample.line_chart (at_ 20 50) (opts None false)
  = modes_x Position Sample.dom_position Sample.line_chart (at_ 20 500) (opts None false)
  /\
  modes_y Position Sample.dom_position Sample.line_chart (at_ 20 50) (opts None false)
  = modes_y Position Sample.dom_position Sample.line_chart (at_ 0 50) (opts None false).
Proof.
  apply axis_modes_read_one_coordinate. reflexivity.
Defined.

Lemma nearest_finds_a_match_witness :
  exists first others,
    modes_nearest SpecHelpers._lookupByKey SpecHelpers._rlookupByKey
      SpecHelpers._isPointInArea Position Sample.dom_position
      Sample.line_chart (at_ 21 0) (opts (Some "x"%string) false)
    = Some (first :: others).
Proof.
  apply (nearest_finds_a_match SpecHelpers._lookupByKey SpecHelpers._rlookupByKey
           SpecHelpers._isPointInArea Position Sample.dom_position
           Sample.line_chart (at_ 21 0) (opts (Some "x"%string) false)
           [mkItem (Sample.dot 20 50) 0 1; mkItem (Sample.dot 30 50) 0 2]
           (mkItem (Sample.dot 30 50) 0 2)).
  - vm_compute. reflexivity.
  - vm_compute. reflexivity.
  - simpl. auto.
  - reflexivity.
  - vm_compute. reflexivity.
Defined.
